(** * Visualizer: the repository analyzer (src/services/repoAnalyzer.ts)

    A shallow embedding of the dependency-graph analyzer and of the two
    layers around it (the HTTP middleware of vite.config.ts and the
    submit handler of the RepoForm component), with the properties of the
    specification stated over it.

    Conventions of the embedding.
    - A JavaScript string is a [string] whose characters are the code
      units below 256; [toLowerCase], [trim] and the regular-expression
      classes are the ECMAScript ones restricted to that range.
    - [path] is Node's POSIX flavour ([path.posix]).
    - A [Map] whose iteration order is observed ([fileMap]) is an
      insertion-ordered association list; the maps that are only read by
      key ([filesByDirectory], [fileContents], [connectionCounts]) are
      [gmap]s.
    - A JavaScript number that is a count is a [nat]; [importance], the
      only fractional one, is a [Q] (every value it takes is a multiple
      of one half, which a double holds exactly). *)

From Stdlib Require Import Ascii String QArith Sorted.
From stdpp Require Import gmap strings list fin_maps.

Close Scope Q_scope.
Open Scope string_scope.

(** ** JavaScript strings *)

Module JS.

Definition code (c : ascii) : nat := nat_of_ascii c.

(** [String.prototype.toLowerCase] on one code unit below 256: the
    letters A-Z and the Latin-1 capitals (C0-D6, D8-DE) move by 32. *)
Definition lower_char (c : ascii) : ascii :=
  let n := code c in
  if (((65 <=? n) && (n <=? 90)) || ((192 <=? n) && (n <=? 214))
      || ((216 <=? n) && (n <=? 222)))%nat
  then ascii_of_nat (n + 32) else c.

Fixpoint map_chars (f : ascii → ascii) (s : string) : string :=
  match s with
  | EmptyString => EmptyString
  | String c s' => String (f c) (map_chars f s')
  end.

Fixpoint filter_chars (keep : ascii → bool) (s : string) : string :=
  match s with
  | EmptyString => EmptyString
  | String c s' =>
      if keep c then String c (filter_chars keep s') else filter_chars keep s'
  end.

Definition toLowerCase (s : string) : string := map_chars lower_char s.

(** White space and line terminators ([\s], and what [trim] strips):
    TAB, LF, VT, FF, CR, SPACE and NBSP. *)
Definition is_space (c : ascii) : bool :=
  let n := code c in
  (((9 <=? n) && (n <=? 13)) || (n =? 32) || (n =? 160))%nat.

(** The single and the double quote: the characters that
    [extractImports] strips from a specifier. *)
Definition is_quote (c : ascii) : bool :=
  Ascii.eqb c "039" || Ascii.eqb c "034".

Definition isEmpty (s : string) : bool :=
  match s with EmptyString => true | _ => false end.

(** A string is truthy when it is not empty. *)
Definition truthy (s : string) : bool := negb (isEmpty s).

Definition startsWith (s p : string) : bool := String.prefix p s.

Fixpoint includes (s sub : string) : bool :=
  String.prefix sub s ||
  match s with
  | EmptyString => false
  | String _ s' => includes s' sub
  end.

Fixpoint trimStart (s : string) : string :=
  match s with
  | String c s' => if is_space c then trimStart s' else s
  | EmptyString => EmptyString
  end.

Fixpoint trimEnd (s : string) : string :=
  match s with
  | EmptyString => EmptyString
  | String c s' =>
      let r := trimEnd s' in
      if is_space c && isEmpty r then EmptyString else String c r
  end.

Definition trim (s : string) : string := trimEnd (trimStart s).

(** [s.replace(q, '')] with [q] the global pattern of the two quote
    characters. *)
Definition stripQuotes (s : string) : string :=
  filter_chars (λ c, negb (is_quote c)) s.

(** [s.replace(b, '/')] with [b] the global pattern of the backslash. *)
Definition backslashesToSlashes (s : string) : string :=
  map_chars (λ c, if Ascii.eqb c "092" then "/"%char else c) s.

(** [s.slice(1)] *)
Definition slice1 (s : string) : string :=
  match s with EmptyString => EmptyString | String _ s' => s' end.

(** [s.split(sep)] for a one-character separator: never empty. *)
Fixpoint split (sep : ascii) (s : string) : list string :=
  match s with
  | EmptyString => [EmptyString]
  | String c s' =>
      if Ascii.eqb c sep then EmptyString :: split sep s'
      else match split sep s' with
           | piece :: pieces => String c piece :: pieces
           | [] => [String c EmptyString]
           end
  end.

(** [pieces.join(sep)] *)
Fixpoint join (sep : string) (pieces : list string) : string :=
  match pieces with
  | [] => EmptyString
  | [p] => p
  | p :: rest => p ++ sep ++ join sep rest
  end.

Fixpoint takeWhile {A} (p : A → bool) (l : list A) : list A :=
  match l with
  | x :: l' => if p x then x :: takeWhile p l' else []
  | [] => []
  end.

Fixpoint dropWhile {A} (p : A → bool) (l : list A) : list A :=
  match l with
  | x :: l' => if p x then dropWhile p l' else l
  | [] => []
  end.

(** [a || b] on strings that may be undefined. *)
Definition orElse (a b : option string) : option string :=
  match a with
  | Some s => if truthy s then a else b
  | None => b
  end.

End JS.

(** ** Node's [path.posix] *)

Module path.

Definition sep : ascii := "/"%char.
Definition isSep (c : ascii) : bool := Ascii.eqb c sep.
Definition isAbsolute (p : string) : bool := JS.startsWith p "/".

(** One step of [normalizeString]: [res] is the stack of segments kept
    so far, last one first.  Empty segments and [.] are dropped; [..]
    removes the last kept segment, unless there is none or it is
    itself [..], in which case it is kept only above a relative
    root. *)
Definition pushSegment (allowAboveRoot : bool) (res : list string)
    (seg : string) : list string :=
  if JS.isEmpty seg || String.eqb seg "." then res
  else if String.eqb seg ".." then
    match res with
    | top :: below =>
        if String.eqb top ".."
        then (if allowAboveRoot then ".." :: res else res)
        else below
    | [] => if allowAboveRoot then [".."] else []
    end
  else seg :: res.

Definition normalizeString (p : string) (allowAboveRoot : bool) : string :=
  JS.join "/" (rev (fold_left (pushSegment allowAboveRoot) (JS.split sep p) [])).

Definition endsWithSep (p : string) : bool :=
  match last (list_ascii_of_string p) with
  | Some c => isSep c
  | None => false
  end.

Definition normalize (p : string) : string :=
  if JS.isEmpty p then "." else
  let abs := isAbsolute p in
  let trailing := endsWithSep p in
  let n := normalizeString p (negb abs) in
  if JS.isEmpty n then
    (if abs then "/" else if trailing then "./" else ".")
  else
    let n := if trailing then n ++ "/" else n in
    if abs then "/" ++ n else n.

Definition join (args : list string) : string :=
  match List.filter JS.truthy args with
  | [] => "."
  | parts => normalize (JS.join "/" parts)
  end.

(** The right-to-left loop of [resolve]: arguments are prepended until
    an absolute one is met. *)
Fixpoint resolveLoop (argsRev : list string) (resolvedPath : string)
    : string * bool :=
  match argsRev with
  | [] => (resolvedPath, false)
  | p :: rest =>
      if JS.isEmpty p then resolveLoop rest resolvedPath
      else
        let joined := p ++ "/" ++ resolvedPath in
        if isAbsolute p then (joined, true) else resolveLoop rest joined
  end.

(** [path.resolve(...args)]; [cwd] is [process.cwd()]. *)
Definition resolve (cwd : string) (args : list string) : string :=
  let '(resolvedPath, resolvedAbsolute) := resolveLoop (rev args ++ [cwd]) "" in
  let n := normalizeString resolvedPath (negb resolvedAbsolute) in
  if resolvedAbsolute then "/" ++ n
  else if JS.isEmpty n then "." else n.

(** The segments of a resolved path, after its leading slash. *)
Definition segments (p : string) : list string :=
  List.filter JS.truthy (JS.split sep (JS.slice1 p)).

Fixpoint dropCommon (from to : list string) : list string * list string :=
  match from, to with
  | f :: from', t :: to' =>
      if String.eqb f t then dropCommon from' to' else (from, to)
  | _, _ => (from, to)
  end.

(** [path.relative(from, to)]: one [..] for every segment of [from]
    below the common ancestor, then the rest of [to]. *)
Definition relative (cwd from to : string) : string :=
  if String.eqb from to then "" else
  let from := resolve cwd [from] in
  let to := resolve cwd [to] in
  if String.eqb from to then "" else
  let '(up, down) := dropCommon (segments from) (segments to) in
  JS.join "/" (map (λ _, "..") up ++ down).

(** The characters of [p] from index [from] on, last one first, without
    the trailing separators. *)
Definition trimmedRev (p : list ascii) : list ascii :=
  JS.dropWhile isSep (rev p).

Definition notSep (c : ascii) : bool := negb (isSep c).

(** [path.basename(p)] *)
Definition basename (p : string) : string :=
  string_of_list_ascii
    (rev (JS.takeWhile notSep (trimmedRev (list_ascii_of_string p)))).

(** [path.dirname(p)]: the first character is never part of the scan,
    it only decides between [/] and [.] when no separator is found. *)
Definition dirname (p : string) : string :=
  match p with
  | EmptyString => "."
  | String c0 rest =>
      let hasRoot := isSep c0 in
      match JS.dropWhile notSep (trimmedRev (list_ascii_of_string rest)) with
      | [] => if hasRoot then "/" else "."
      | _ :: before =>
          if hasRoot && (length before =? 0)%nat then "//"
          else String c0 (string_of_list_ascii (rev before))
      end
  end.

Fixpoint lastDot (s : string) : option string :=
  match s with
  | EmptyString => None
  | String c s' =>
      match lastDot s' with
      | Some e => Some e
      | None => if Ascii.eqb c "." then Some s else None
      end
  end.

(** [path.extname(p)]: from the last dot of the basename on; empty when
    there is no dot, when the only dot is the first character, and for
    the basename [..]. *)
Definition extname (p : string) : string :=
  let base := basename p in
  if String.eqb base ".." then "" else
  match base with
  | EmptyString => ""
  | String c0 rest =>
      match lastDot rest with
      | Some e => e
      | None => ""
      end
  end.

End path.

(** ** Regular expressions

    The fragment of ECMAScript patterns that the analyzer uses: literal
    characters, character classes, a star over a class (greedy or lazy)
    and capturing groups, matched by backtracking. *)

Module RegExp.

Inductive regex : Type :=
| Eps
| Chr (c : ascii)
| Cls (p : ascii → bool)
| Star (greedy : bool) (p : ascii → bool)
| Seq (r1 r2 : regex)
| Group (n : nat) (r : regex).

Fixpoint lit (s : string) : regex :=
  match s with
  | EmptyString => Eps
  | String c s' => Seq (Chr c) (lit s')
  end.

(** [p+] is [p] followed by [p*]. *)
Definition plus (p : ascii → bool) : regex := Seq (Cls p) (Star true p).

Fixpoint seq (rs : list regex) : regex :=
  match rs with
  | [] => Eps
  | r :: rs' => Seq r (seq rs')
  end.

(** The capture of group [n], undefined until the group has matched. *)
Definition captures : Type := nat → option string.
Definition noCaptures : captures := λ _, None.
Definition setCapture (n : nat) (s : string) (caps : captures) : captures :=
  λ m, if (m =? n)%nat then Some s else caps m.

(** What was consumed between the input [s] and its suffix [rest]. *)
Definition consumed (s rest : string) : string :=
  substring 0 (String.length s - String.length rest) s.

Section Matcher.
Context {A : Type}.

(** A greedy star takes a character first and only then tries the
    continuation without it; a lazy star does the opposite. *)
Fixpoint star (greedy : bool) (p : ascii → bool) (s : string)
    (k : string → option A) : option A :=
  match s with
  | String c s' =>
      if p c then
        if greedy then
          match star greedy p s' k with
          | Some r => Some r
          | None => k s
          end
        else
          match k s with
          | Some r => Some r
          | None => star greedy p s' k
          end
      else k s
  | EmptyString => k s
  end.

Fixpoint run (r : regex) (s : string) (caps : captures)
    (k : string → captures → option A) : option A :=
  match r with
  | Eps => k s caps
  | Chr c =>
      match s with
      | String c' s' => if Ascii.eqb c c' then k s' caps else None
      | EmptyString => None
      end
  | Cls p =>
      match s with
      | String c' s' => if p c' then k s' caps else None
      | EmptyString => None
      end
  | Star greedy p => star greedy p s (λ s', k s' caps)
  | Seq r1 r2 => run r1 s caps (λ s' caps', run r2 s' caps' k)
  | Group n r1 =>
      run r1 s caps (λ s' caps', k s' (setCapture n (consumed s s') caps'))
  end.
End Matcher.

(** A match of [r] at the start of [s]: the number of characters
    consumed and the captures. *)
Definition matchAt (r : regex) (s : string) : option (nat * captures) :=
  run r s noCaptures
    (λ rest caps, Some (String.length s - String.length rest, caps)).

(** [r.test(s)] for a pattern anchored at the start of [s]. *)
Definition testAnchored (r : regex) (s : string) : bool :=
  match matchAt r s with Some _ => true | None => false end.

(** The loop [while ((match = r.exec(s)) !== null)] for a global
    pattern, [lastIndex] reset to 0 before it: the matches from left to
    right, each search starting where the previous match ended.
    [skip] is the number of characters still covered by the previous
    match, that is [lastIndex] minus the current position.  (A pattern
    that matched the empty string would keep [exec] at the same index
    for ever; every pattern of the analyzer starts with a literal, so
    none does, see [IMPORT_PATTERNS_consume].) *)
Fixpoint execAll (r : regex) (s : string) (skip : nat) : list captures :=
  match s with
  | EmptyString => []
  | String _ s' =>
      match skip with
      | S skip' => execAll r s' skip'
      | O =>
          match matchAt r s with
          | Some (len, caps) => caps :: execAll r s' (len - 1)
          | None => execAll r s' 0
          end
      end
  end.

(** Character classes. *)
Definition space : ascii → bool := JS.is_space.
(** [.] matches everything but a line terminator. *)
Definition dot (c : ascii) : bool :=
  negb (Ascii.eqb c "010" || Ascii.eqb c "013").
Definition oneOf (cs : string) (c : ascii) : bool :=
  existsb (Ascii.eqb c) (list_ascii_of_string cs).
Definition noneOf (cs : string) (c : ascii) : bool := negb (oneOf cs c).
Definition quote : ascii → bool := JS.is_quote.
Definition notQuote (c : ascii) : bool := negb (JS.is_quote c).

End RegExp.

(** ** The analyzer: src/services/repoAnalyzer.ts *)

Module repoAnalyzer.

Import RegExp.

(** The ten patterns, in the order of the source. *)
Definition IMPORT_PATTERNS : list regex :=
  [ (* ES6 imports *)
    seq [lit "import"; plus space; Star false dot; lit "from"; plus space;
         Cls quote; Group 1 (plus notQuote); Cls quote];
    (* CommonJS require *)
    seq [lit "require"; Star true space; lit "("; Star true space;
         Cls quote; Group 1 (plus notQuote); Cls quote;
         Star true space; lit ")"];
    (* Dynamic imports *)
    seq [lit "import"; Star true space; lit "("; Star true space;
         Cls quote; Group 1 (plus notQuote); Cls quote;
         Star true space; lit ")"];
    (* Python-style imports *)
    seq [lit "from"; plus space; Cls quote; Group 1 (plus notQuote); Cls quote];
    (* Go imports *)
    seq [lit "import"; plus space;
         Group 1 (seq [Cls quote; Group 2 (plus notQuote); Cls quote])];
    (* Java imports *)
    seq [lit "import"; plus space; Group 1 (plus (noneOf ";")); lit ";"];
    (* C/C++ includes *)
    seq [lit "#include"; Star true space; Cls (λ c, Ascii.eqb c "034" || Ascii.eqb c "<");
         Group 1 (plus (λ c, negb (Ascii.eqb c "034" || Ascii.eqb c ">")));
         Cls (λ c, Ascii.eqb c "034" || Ascii.eqb c ">")];
    (* C# using statements *)
    seq [lit "using"; plus space; Group 1 (plus (noneOf ";")); lit ";"];
    (* Script loading *)
    seq [lit "load"; Star true space; lit "("; Star true space;
         Cls quote; Group 1 (plus notQuote); Cls quote;
         Star true space; lit ")"];
    (* CSS imports *)
    seq [lit "@import"; Star true space; Cls quote; Group 1 (plus notQuote);
         Cls quote] ].

(** [imports.add(x)] on a [Set] listed in insertion order. *)
Definition setAdd (x : string) (set : list string) : list string :=
  if bool_decide (x ∈ set) then set else (set ++ [x])%list.

(** The body of the [while] loop of [extractImports] for one match. *)
Definition addMatch (imports : list string) (m : captures) : list string :=
  match JS.orElse (m 1) (m 2) with
  | Some importPath =>
      if negb (JS.includes importPath "node_modules")
         && negb (JS.startsWith importPath "http")
      then
        let importPath := JS.trim (JS.stripQuotes importPath) in
        if JS.truthy importPath then setAdd importPath imports else imports
      else imports
  | None => imports
  end.

Definition extractImports (content : string) : list string :=
  fold_left
    (λ imports pattern, fold_left addMatch (execAll pattern content 0) imports)
    IMPORT_PATTERNS [].

(** The interfaces of the graph. *)
Record DependencyNode : Type := {
  id : string;
  label : string;
  type : string;
  size : nat;
  importance : Q;
  directory : string;
  lines : nat
}.

Record DependencyEdge : Type := {
  source : string;
  target : string;
  value : nat
}.

Record DependencyGraph : Type := {
  nodes : list DependencyNode;
  edges : list DependencyEdge
}.

(** A [Map<string, string>] in insertion order: [set] on a key that is
    present replaces the value and keeps the position of the key. *)
Module JSMap.

Definition t : Type := list (string * string).

Fixpoint set (k v : string) (m : t) : t :=
  match m with
  | [] => [(k, v)]
  | (k', v') :: m' =>
      if String.eqb k' k then (k', v) :: m' else (k', v') :: set k v m'
  end.

Fixpoint get (k : string) (m : t) : option string :=
  match m with
  | [] => None
  | (k', v') :: m' => if String.eqb k' k then Some v' else get k m'
  end.

Definition has (k : string) (m : t) : bool :=
  match get k m with Some _ => true | None => false end.

Definition keys (m : t) : list string := map fst m.

End JSMap.

(** A [for] loop whose body returns from the function on a hit: the
    first element for which [body] gives a result decides. *)
Fixpoint firstHit {A B : Type} (body : A → option B) (l : list A) : option B :=
  match l with
  | [] => None
  | x :: l' =>
      match body x with
      | Some r => Some r
      | None => firstHit body l'
      end
  end.

(** [for (i = 0; i < l.length; i += n) l.slice(i, i + n)] *)
Fixpoint slices {A : Type} (fuel n : nat) (l : list A) : list (list A) :=
  match fuel with
  | O => []
  | S fuel' =>
      match l with
      | [] => []
      | _ => take n l :: slices fuel' n (drop n l)
      end
  end.

Definition batches {A : Type} (n : nat) (l : list A) : list (list A) :=
  slices (length l) n l.

(** The three lookup structures built from the discovered files. *)
Record FileMaps : Type := {
  fileMap : JSMap.t;
  filesByBasename : gmap string (list string);
  filesByDirectory : gmap string (gset string)
}.

(** What the edge extraction accumulates. *)
Record Accumulator : Type := {
  acc_edges : list DependencyEdge;
  connectionCounts : gmap string nat
}.

(** A file callback suspended at [await fastResolveImport(...)]: the
    file, the value the promise holds and the specifiers the [for] loop
    has still to visit. *)
Record Suspended : Type := {
  s_file : string;
  s_resolvedTarget : option string;
  s_rest : list string
}.

(** The own entries of the table of [getFileTypeImportance]. *)
Definition importanceMap : list (string * nat) :=
  [ ("json", 8);
    ("js", 7); ("ts", 7); ("tsx", 7); ("jsx", 7);
    ("go", 7); ("py", 7); ("java", 7); ("cpp", 7); ("c", 7); ("rs", 7);
    ("md", 6); ("html", 6);
    ("css", 5); ("scss", 5);
    ("h", 6); ("hpp", 6);
    ("php", 6); ("rb", 6); ("cs", 6);
    ("other", 3) ].

(** [importanceMap[type] || 3], for a [type] that is not the name of a
    property that the object literal inherits ([constructor],
    [toString], [__proto__], ...).  For such a name the lookup of the
    code gives the inherited function or object and no number, which
    this definition does not follow: it is used for the types of the
    files that discovery lets through, which are never such names
    ([listed_extension_is_own], [getAllFiles_extension]). *)
Definition getFileTypeImportance (type : string) : nat :=
  match firstHit (λ kv : string * nat,
                    if String.eqb (fst kv) type then Some (snd kv) else None)
          importanceMap with
  | Some (S n) => S n
  | _ => 3
  end.

Section Analyzer.

(** [process.cwd()], the directory of the clone and the file system as
    [fs.readFile] sees it ([None] when the read fails). *)
Variable cwd : string.
Variable tempDir : string.
Variable readFile : string → option string.

Definition normalizePath (p : string) : string :=
  JS.backslashesToSlashes (JS.toLowerCase p).

Definition extensions : list string :=
  [".ts"; ".tsx"; ".js"; ".jsx"; ".go"; ".py"; ".java"; ".php"; ".rb";
   ".cs"; ".cpp"; ".h"].

Definition fastResolveImport (sourceFile importPath : string)
    (maps : FileMaps) : option string :=
  let sourceDir := path.dirname sourceFile in
  let resolvedPath := path.resolve cwd [sourceDir; importPath] in
  let relativePath := path.relative cwd tempDir resolvedPath in
  match
    firstHit (λ ext,
      let pathWithExt := relativePath ++ ext in
      let normalizedPath := normalizePath pathWithExt in
      if JSMap.has normalizedPath (fileMap maps)
      then JSMap.get normalizedPath (fileMap maps) else None) extensions
  with
  | Some found => Some found
  | None =>
      let targetDir := path.dirname relativePath in
      match
        match filesByDirectory maps !! targetDir with
        | Some dirFiles =>
            firstHit (λ ext,
              let indexFile := path.join [targetDir; "index" ++ ext] in
              if bool_decide (indexFile ∈ dirFiles) then Some indexFile
              else None) extensions
        | None => None
        end
      with
      | Some found => Some found
      | None =>
          let basename := path.basename importPath in
          firstHit (λ ext,
            let filename := basename ++ ext in
            let normalizedFilename := JS.toLowerCase filename in
            let mapKeys := JSMap.keys (fileMap maps) in
            firstHit (λ mapPath,
              if String.eqb (path.basename mapPath) normalizedFilename
              then JSMap.get mapPath (fileMap maps) else None) mapKeys)
            extensions
      end
  end.

Definition relativeOf (file : string) : string :=
  path.relative cwd tempDir file.

(** The body of [files.forEach] that fills the lookup maps. *)
Definition addFile (maps : FileMaps) (file : string) : FileMaps :=
  let relativePath := relativeOf file in
  let normalizedPath := normalizePath relativePath in
  let basename := path.basename file in
  let directory := path.dirname relativePath in
  {| fileMap := JSMap.set normalizedPath relativePath (fileMap maps);
     filesByBasename :=
       <[basename := (default [] (filesByBasename maps !! basename)
                      ++ [relativePath])%list]> (filesByBasename maps);
     filesByDirectory :=
       <[directory := default ∅ (filesByDirectory maps !! directory)
                      ∪ {[relativePath]}]> (filesByDirectory maps) |}.

Definition buildFileMaps (files : list string) : FileMaps :=
  fold_left addFile files
    {| fileMap := []; filesByBasename := ∅; filesByDirectory := ∅ |}.

(** [fs.readFile(file, 'utf-8').catch(() => '')] *)
Definition contentOf (file : string) : string := default "" (readFile file).

Definition cacheContents (files : list string) : gmap string string :=
  fold_left (λ fileContents file,
               <[relativeOf file := contentOf file]> fileContents) files ∅.

Definition makeNode (file : string) : DependencyNode :=
  let relativePath := relativeOf file in
  let content := contentOf file in
  let lines := length (JS.split "010" content) in
  let directory := path.dirname relativePath in
  {| id := relativePath;
     label := path.basename file;
     type := (let ext := JS.slice1 (path.extname file) in
              if JS.truthy ext then ext else "other");
     size := Nat.max 1 (lines / 10);
     lines := lines;
     directory := if String.eqb directory "." then "root" else directory;
     importance := 1 |}.

Section Extraction.

Variable maps : FileMaps.
Variable fileContents : gmap string string.

Definition isRelativeSpecifier (importPath : string) : bool :=
  JS.startsWith importPath "." || JS.startsWith importPath "/".

(** The [for] loop over the specifiers of [file], up to its next
    [await]: bare specifiers are passed over, the first relative one
    is resolved and the callback suspends on the result.  [None]
    when the loop, and with it the callback, ends. *)
Fixpoint runToAwait (file : string) (importMatches : list string)
    : option Suspended :=
  match importMatches with
  | [] => None
  | importPath :: rest =>
      if isRelativeSpecifier importPath then
        Some {| s_file := file;
                s_resolvedTarget := fastResolveImport file importPath maps;
                s_rest := rest |}
      else runToAwait file rest
  end.

(** The start of the callback of [batch.map], up to its first
    [await]. *)
Definition startFile (file : string) : option Suspended :=
  let relativePath := relativeOf file in
  let content := default "" (fileContents !! relativePath) in
  runToAwait file (extractImports content).

Definition bump (key : string) (counts : gmap string nat) : gmap string nat :=
  <[key := default 0 (counts !! key) + 1]> counts.

(** What a callback does when it resumes with the resolved target. *)
Definition pushEdge (s : Suspended) (acc : Accumulator) : Accumulator :=
  let relativePath := relativeOf (s_file s) in
  match s_resolvedTarget s with
  | Some resolvedTarget =>
      if JS.truthy resolvedTarget
         && negb (String.eqb resolvedTarget relativePath)
      then
        {| acc_edges :=
             (acc_edges acc
              ++ [{| source := relativePath; target := resolvedTarget;
                     value := 1 |}])%list;
           connectionCounts :=
             bump resolvedTarget (bump relativePath (connectionCounts acc)) |}
      else acc
  | None => acc
  end.

(** The microtask queue of one batch: the callback at the head
    resumes, pushes its edge and runs to its next [await], where it
    joins the end of the queue. *)
Fixpoint drain (fuel : nat) (queue : list Suspended) (acc : Accumulator)
    : Accumulator :=
  match fuel with
  | O => acc
  | S fuel' =>
      match queue with
      | [] => acc
      | s :: queue' =>
          let acc' := pushEdge s acc in
          match runToAwait (s_file s) (s_rest s) with
          | Some s' => drain fuel' (queue' ++ [s'])%list acc'
          | None => drain fuel' queue' acc'
          end
      end
  end.

(** The resumptions a suspended callback still has before it. *)
Definition pending (s : Suspended) : nat := S (length (s_rest s)).

Definition queueWeight (queue : list Suspended) : nat :=
  list_sum (map pending queue).

(** [await Promise.all(batch.map(async file => ...))] *)
Definition processBatch (acc : Accumulator) (batch : list string)
    : Accumulator :=
  let queue := omap startFile batch in
  drain (queueWeight queue) queue acc.

End Extraction.

Definition batchSizeOf (files : list string) : nat :=
  Nat.min 100 (Nat.max 10 (length files / 10)).

Definition extractEdges (files : list string) : Accumulator :=
  fold_left (processBatch (buildFileMaps files) (cacheContents files))
    (batches (batchSizeOf files) files)
    {| acc_edges := []; connectionCounts := ∅ |}.

(** The body of the final [nodes.forEach]. *)
Definition score (counts : gmap string nat) (node : DependencyNode)
    : DependencyNode :=
  let connections := default 0 (counts !! id node) in
  let typeImportance :=
    getFileTypeImportance (if JS.truthy (type node) then type node else "other") in
  {| id := id node; label := label node; type := type node;
     size := size node;
     importance :=
       (inject_Z (Z.of_nat typeImportance)
        + inject_Z (Z.of_nat connections) * (1 # 2))%Q;
     directory := directory node; lines := lines node |}.

(** [analyzeRepository] from the discovered files on. *)
Definition analyzeFiles (files : list string) : DependencyGraph :=
  let nodes := map makeNode files in
  let acc := extractEdges files in
  {| nodes := map (score (connectionCounts acc)) nodes;
     edges := acc_edges acc |}.

(** *** What the extraction is expected to produce

    The edge owed to one resolved target, to one specifier and to one
    file, written without the scheduling of the callbacks. *)

Definition edgeOfTarget (file : string) (resolvedTarget : option string)
    : list DependencyEdge :=
  match resolvedTarget with
  | Some resolvedTarget =>
      if JS.truthy resolvedTarget
         && negb (String.eqb resolvedTarget (relativeOf file))
      then [{| source := relativeOf file; target := resolvedTarget;
               value := 1 |}]
      else []
  | None => []
  end.

Definition edgesOfSpecifier (maps : FileMaps) (file importPath : string)
    : list DependencyEdge :=
  edgeOfTarget file (fastResolveImport file importPath maps).

Definition cachedImports (files : list string) (file : string) : list string :=
  extractImports (default "" (cacheContents files !! relativeOf file)).

Definition edgesOfFile (files : list string) (file : string)
    : list DependencyEdge :=
  flat_map (edgesOfSpecifier (buildFileMaps files) file)
    (List.filter isRelativeSpecifier (cachedImports files file)).

(** [importPath] is a relative specifier of [file] whose edge goes to
    [to]. *)
Definition resolvesTo (maps : FileMaps) (file to importPath : string) : bool :=
  isRelativeSpecifier importPath
  && match fastResolveImport file importPath maps with
     | Some resolvedTarget =>
         JS.truthy resolvedTarget
         && negb (String.eqb resolvedTarget (relativeOf file))
         && String.eqb resolvedTarget to
     | None => false
     end.

End Analyzer.

(** The number of edges that touch the node [key], in either direction. *)
Definition connectionCount (key : string) (edges : list DependencyEdge) : nat :=
  length (List.filter
            (λ e, String.eqb (source e) key || String.eqb (target e) key) edges).

(** The number of edges from [from] to [to]. *)
Definition edgeCount (from to : string) (edges : list DependencyEdge) : nat :=
  length (List.filter
            (λ e, String.eqb (source e) from && String.eqb (target e) to) edges).

(** ** Discovery

    The clone as [fs.readdir] and [fs.readFile] see it: a file with its
    content ([None] when it cannot be read), a directory with its
    listing ([None] when it cannot be listed). *)

#[warnings="-register-all"]
Inductive entry : Type :=
| File (name : string) (content : option string)
| Directory (name : string) (listing : option (list entry)).

Definition entryName (e : entry) : string :=
  match e with File name _ => name | Directory name _ => name end.

Definition isDirectory (e : entry) : bool :=
  match e with File _ _ => false | Directory _ _ => true end.

Definition skipDirs : gset string :=
  list_to_set [".git"; "node_modules"; ".next"; "dist"; "build"; ".vscode";
               ".idea"; "coverage"].

Definition relevantExtensions : gset string :=
  list_to_set [".ts"; ".tsx"; ".js"; ".jsx"; ".go"; ".py"; ".java"; ".php";
               ".rb"; ".cs"; ".cpp"; ".h"; ".hpp"; ".json"; ".md"; ".css";
               ".scss"; ".html"].

(** One order in which the callbacks of the batches of [n] entries push
    their files.  In a batch the file entries push at once, in their
    order, before any directory of the batch: that much the code fixes.
    A directory entry pushes what its awaited traversal finds, and the
    traversals of the directories of one batch run interleaved, each
    going on when one of its listings arrives: the code does not fix
    the order among them.  Here every traversal is taken to finish
    before the next one pushes.  What is proved of the discovered files
    is proved up to their order ([getAllFiles_up_to_order]), and no
    listing of the example repositories has two directories that are
    traversed, so that the code fixes the order of their files. *)
Definition inBatchOrder (n : nat) (pushed : list (bool * list string))
    : list string :=
  flat_map (λ batch,
      concat (map snd (List.filter (λ r, negb (fst r)) batch))
      ++ concat (map snd (List.filter fst batch)))%list
    (batches n pushed).

(** The callback of [batch.map] in [traverse], for one entry of
    [currentDir]. *)
Fixpoint visit (currentDir : string) (e : entry) {struct e} : list string :=
  if JS.startsWith (entryName e) "." && negb (String.eqb (entryName e) ".env")
  then []
  else
    let fullPath := path.join [currentDir; entryName e] in
    match e with
    | Directory name listing =>
        if bool_decide (name ∈ skipDirs) then []
        else
          match listing with
          | None => []
          | Some entries =>
              inBatchOrder 50
                ((fix each (es : list entry) : list (bool * list string) :=
                    match es with
                    | [] => []
                    | e' :: es' => (isDirectory e', visit fullPath e') :: each es'
                    end) entries)
          end
    | File name _ =>
        let ext := JS.toLowerCase (path.extname name) in
        if bool_decide (ext ∈ relevantExtensions) then [fullPath] else []
    end.

Definition traverse (currentDir : string) (listing : option (list entry))
    : list string :=
  match listing with
  | None => []
  | Some entries =>
      inBatchOrder 50 (map (λ e, (isDirectory e, visit currentDir e)) entries)
  end.

Definition getAllFiles (dir : string) (tree : option (list entry)) : list string :=
  traverse dir tree.

(** Every file of the tree with its full path, for [fs.readFile]. *)
Fixpoint filesUnder (currentDir : string) (e : entry) {struct e}
    : list (string * option string) :=
  let fullPath := path.join [currentDir; entryName e] in
  match e with
  | File _ content => [(fullPath, content)]
  | Directory _ None => []
  | Directory _ (Some entries) =>
      (fix each (es : list entry) : list (string * option string) :=
         match es with
         | [] => []
         | e' :: es' => (filesUnder fullPath e' ++ each es')%list
         end) entries
  end.

Definition readFileIn (dir : string) (tree : option (list entry))
    (file : string) : option string :=
  match firstHit (λ pc : string * option string,
                    if String.eqb (fst pc) file then Some (snd pc) else None)
          (flat_map (filesUnder dir) (default [] tree)) with
  | Some content => content
  | None => None
  end.

(** *** The entry point *)

(** How a promise settles. *)
Inductive Settled (A : Type) : Type :=
| Resolved (result : A)
| Rejected (message : string).
Arguments Resolved {A} result.
Arguments Rejected {A} message.

(** [/^https:\/\/github\.com\/[^/]+\/[^/]+/] *)
Definition githubUrl : regex :=
  seq [lit "https://github.com/"; plus (noneOf "/"); lit "/"; plus (noneOf "/")].

Section Service.

(** [process.cwd()], the directory made for the clone, and what
    [git.clone] does with a URL: it fails with a message or leaves a
    tree in that directory. *)
Variable cwd : string.
Variable tempDir : string.
Variable clone : string → string + option (list entry).

Definition analyzeRepository (repoUrl : string) : Settled DependencyGraph :=
  let cleanUrl := JS.trim repoUrl in
  if negb (testAnchored githubUrl cleanUrl) then
    Rejected "Invalid GitHub repository URL"
  else
    match clone cleanUrl with
    | inl message => Rejected message
    | inr tree =>
        let files := getAllFiles tempDir tree in
        Resolved (analyzeFiles cwd tempDir (readFileIn tempDir tree) files)
    end.

End Service.

End repoAnalyzer.

(** ** The [/api/analyze] middleware: vite.config.ts *)

Module viteConfig.

Import repoAnalyzer.

Inductive Body : Type :=
| ErrorBody (error : string)
| GraphBody (data : DependencyGraph).

Record Response : Type := { statusCode : nat; body : Body }.

(** The handler of the [end] event from the destructured [repoUrl] on,
    for a [repoUrl] that is a string or is missing: what the form
    sends.  The whole handler, with the parser, the destructuring and
    the other values, is [onEnd] below. *)
Definition analyzeApi (cwd tempDir : string)
    (clone : string → string + option (list entry))
    (repoUrl : option string) : Response :=
  match repoUrl with
  | Some repoUrl =>
      if JS.truthy repoUrl then
        match analyzeRepository cwd tempDir clone repoUrl with
        | Resolved result => {| statusCode := 200; body := GraphBody result |}
        | Rejected message => {| statusCode := 500; body := ErrorBody message |}
        end
      else {| statusCode := 400; body := ErrorBody "Repository URL is required" |}
  | None => {| statusCode := 400; body := ErrorBody "Repository URL is required" |}
  end.

(** The numbers that [JSON.parse] gives: a finite one, or an infinite
    one for an exponent out of range. *)
Inductive Number : Type :=
| Finite (q : Q)
| Infinite.

(** The values that [JSON.parse] gives.  In an object a later member
    replaces an earlier one of the same name. *)
#[warnings="-register-all"]
Inductive Json : Type :=
| JNull
| JBool (b : bool)
| JNumber (x : Number)
| JString (s : string)
| JArray (items : list Json)
| JObject (members : list (string * Json)).

(** [!!value] *)
Definition truthy (value : Json) : bool :=
  match value with
  | JNull => false
  | JBool b => b
  | JNumber (Finite q) => negb (Qeq_bool q 0%Q)
  | JNumber Infinite => true
  | JString s => JS.truthy s
  | JArray _ => true
  | JObject _ => true
  end.

(** [data.repoUrl] for a [data] other than [null]: [None] is
    [undefined].  Only an object has such a property; numbers, strings,
    booleans and arrays have none, of their own or inherited. *)
Definition repoUrlOf (data : Json) : option Json :=
  match data with
  | JObject members =>
      firstHit (λ member : string * Json,
                  if String.eqb (fst member) "repoUrl" then Some (snd member)
                  else None)
        (rev members)
  | _ => None
  end.

(** The errors that the engine itself throws inside the [try]:
    [JSON.parse] on a body that is not JSON, the destructuring of
    [null], and the call of [repoUrl.trim] in [analyzeRepository] on a
    value that is not a string. *)
Inductive EngineError : Type :=
| JsonSyntaxError
| DestructuringNull
| TrimIsNotAFunction.

Definition failed (message : string) : Response :=
  {| statusCode := 500; body := ErrorBody message |}.

Section Middleware.

(** The messages of the engine's errors, [process.cwd()], the directory
    made for the clone and what [git.clone] does. *)
Variable messageOf : EngineError → string.
Variable cwd : string.
Variable tempDir : string.
Variable clone : string → string + option (list entry).

(** The handler of the [end] event: [parsed] is what [JSON.parse] gives
    for the body, [None] when it throws. *)
Definition onEnd (parsed : option Json) : Response :=
  match parsed with
  | None => failed (messageOf JsonSyntaxError)
  | Some JNull => failed (messageOf DestructuringNull)
  | Some data =>
      match repoUrlOf data with
      | None => analyzeApi cwd tempDir clone None
      | Some (JString repoUrl) => analyzeApi cwd tempDir clone (Some repoUrl)
      | Some value =>
          if truthy value then failed (messageOf TrimIsNotAFunction)
          else analyzeApi cwd tempDir clone None
      end
  end.

(** The middleware: [None] is the call of [next()]. *)
Definition middleware (url method : string) (parsed : option Json)
    : option Response :=
  if String.eqb url "/api/analyze" && String.eqb method "POST"
  then Some (onEnd parsed) else None.

End Middleware.

End viteConfig.

(** ** The submit handler of the form: the RepoForm component *)

Module RepoForm.

Import repoAnalyzer viteConfig.

(** What [handleSubmit] ends with: the call of [onAnalyze] or the
    message given to [onError]. *)
Inductive Submitted : Type :=
| OnAnalyze (data : DependencyGraph)
| OnError (errorMessage : string).

(** [throw new Error(message)] inside the [try], as the [catch] reports
    it. *)
Definition thrown (message : string) : Submitted :=
  OnError ("Error: " ++ message
           ++ ". Please check the repository URL and try again.").

(** What the server parses from [JSON.stringify({ repoUrl })]: a member
    that is [undefined] is left out. *)
Definition requestBody (repoUrl : option string) : Json :=
  JObject match repoUrl with
          | Some repoUrl => [("repoUrl", JString repoUrl)]
          | None => []
          end.

Definition handleSubmit (response : Response) : Submitted :=
  let ok := ((200 <=? statusCode response) && (statusCode response <=? 299))%nat in
  match body response with
  | ErrorBody error =>
      if negb ok then
        thrown (if JS.truthy error then error else "Failed to analyze repository")
      else thrown "Invalid response from server"
  | GraphBody data =>
      if negb ok then thrown "Failed to analyze repository"
      else if (length (nodes data) =? 0)%nat then
        thrown "No relevant files found in the repository"
      else OnAnalyze data
  end.

End RepoForm.

(** ** The data of the drawing: the forceGraph component

    [createForceGraph] draws with d3; what is embedded here is what it
    computes before it draws, the nodes and the links it hands to the
    simulation. *)

Module forceGraph.

(** A node as the component receives it.  The coordinates that d3 adds
    while it lays the graph out are left out. *)
Record Node : Type := {
  id : string;
  label : string;
  type : option string;
  group : option string;
  importance : option Q;
  lines : option nat
}.

Record Link : Type := {
  source : string;
  target : string;
  value : option nat
}.

Definition oneOfStrings (x : string) (l : list string) : bool :=
  existsb (String.eqb x) l.

(** [s.endsWith(suffix)] *)
Definition endsWith (s suffix : string) : bool :=
  String.prefix (string_of_list_ascii (rev (list_ascii_of_string suffix)))
    (string_of_list_ascii (rev (list_ascii_of_string s))).

(** [filename.split('.').pop()?.toLowerCase() || ''], then the
    families. *)
Definition getFileExtension (filename : string) : string :=
  let ext := JS.toLowerCase (default "" (last (JS.split "." filename))) in
  if oneOfStrings ext ["ts"; "tsx"; "js"; "jsx"] then ext
  else if oneOfStrings ext ["css"; "scss"; "sass"] then "css"
  else if oneOfStrings ext ["json"] then "json"
  else if oneOfStrings ext ["md"; "txt"; "readme"] then "md"
  else if JS.truthy ext then ext else "other".

Definition typeImportance : list (string * nat) :=
  [ ("package", 10); ("json", 8); ("js", 7); ("ts", 7); ("tsx", 7);
    ("jsx", 7); ("md", 6); ("html", 6); ("css", 5); ("scss", 5); ("py", 7);
    ("java", 7); ("go", 7); ("rs", 7); ("cpp", 7); ("c", 7); ("h", 6) ].

(** The property names every object literal inherits; each holds a
    function or an object, which is truthy and is not a number. *)
Definition inheritedKeys : list string :=
  [ "constructor"; "__defineGetter__"; "__defineSetter__"; "hasOwnProperty";
    "__lookupGetter__"; "__lookupSetter__"; "isPrototypeOf";
    "propertyIsEnumerable"; "toString"; "valueOf"; "__proto__";
    "toLocaleString" ].

(** [Math.min(a, b)] *)
Definition Math_min (a b : Q) : Q := if Qle_bool a b then a else b.

Definition touches (key : string) (l : Link) : bool :=
  String.eqb (source l) key || String.eqb (target l) key.

(** [typeImportance[ext] || 3]: [None] when the lookup reaches an
    inherited property, whose value is not a number. *)
Definition baseImportance (ext : string) : option nat :=
  match repoAnalyzer.firstHit (λ kv : string * nat,
                    if String.eqb (fst kv) ext then Some (snd kv) else None)
          typeImportance with
  | Some (S n) => Some (S n)
  | Some O => Some 3%nat
  | None => if oneOfStrings ext inheritedKeys then None else Some 3%nat
  end.

(** The result is [None] when the sum is not a number. *)
Definition calculateImportance (node : Node) (links : list Link) : option Q :=
  let connections := length (List.filter (touches (id node)) links) in
  let ext := getFileExtension (label node) in
  match baseImportance ext with
  | Some base =>
      Some (inject_Z (Z.of_nat base)
            + Math_min (inject_Z (Z.of_nat connections) * (1 # 2)) 5)%Q
  | None => None
  end.

Definition MAX_NODES : nat := 300.
Definition MIN_IMPORTANCE : Q := 1%Q.

(** A number that is present and not zero. *)
Definition truthyNumber (x : option Q) : bool :=
  match x with
  | Some q => negb (Qeq_bool q 0)
  | None => false
  end.

(** [x || 0] *)
Definition orZero (x : option Q) : Q :=
  match x with
  | Some q => q
  | None => 0%Q
  end.

Definition isSystemFile (label : string) : bool :=
  JS.startsWith label "."
  || JS.includes label "node_modules"
  || JS.includes label ".git"
  || endsWith label ".min.js"
  || endsWith label ".map"
  || JS.includes label "coverage"
  || JS.includes label "dist/"
  || JS.includes label "build/"
  || JS.includes label "temp/".

(** The callback of [nodes.map]: [node.importance ||
    calculateImportance(node, links)].  In its result [None] is a value
    that is not a number. *)
Definition withImportance (links : list Link) (node : Node) : Node :=
  {| id := id node; label := label node; type := type node;
     group := group node;
     importance := if truthyNumber (importance node) then importance node
                   else calculateImportance node links;
     lines := lines node |}.

(** The callback of [filter]; a value that is not a number compares
    false with [MIN_IMPORTANCE]. *)
Definition kept (node : Node) : bool :=
  negb (isSystemFile (label node))
  && match importance node with
     | Some q => Qle_bool MIN_IMPORTANCE q
     | None => false
     end.

(** [nodes.sort((a, b) => (b.importance || 0) - (a.importance || 0))]:
    the sort is stable, so the order it gives is the one of inserting
    every node, from the last to the first, before the first node of
    lower or equal importance. *)
Fixpoint insertByImportance (x : Node) (sorted : list Node) : list Node :=
  match sorted with
  | [] => [x]
  | y :: rest =>
      if Qle_bool (orZero (importance y)) (orZero (importance x))
      then x :: sorted
      else y :: insertByImportance x rest
  end.

Definition sortByImportance (l : list Node) : list Node :=
  foldr insertByImportance [] l.

Definition processedNodes (nodes : list Node) (links : list Link) : list Node :=
  take MAX_NODES
    (sortByImportance (List.filter kept (map (withImportance links) nodes))).

(** The links between two processed nodes (the endpoints the server
    sends are strings, and stay strings in the copies). *)
Definition filteredLinks (nodes : list Node) (links : list Link) : list Link :=
  let nodeIds := map id (processedNodes nodes links) in
  List.filter
    (λ link, bool_decide (source link ∈ nodeIds)
             && bool_decide (target link ∈ nodeIds))
    links.

(** The JSON of the analyzer as the component reads it. *)
Definition ofDependencyNode (node : repoAnalyzer.DependencyNode) : Node :=
  {| id := repoAnalyzer.id node; label := repoAnalyzer.label node;
     type := Some (repoAnalyzer.type node); group := None;
     importance := Some (repoAnalyzer.importance node);
     lines := Some (repoAnalyzer.lines node) |}.

Definition ofDependencyEdge (edge : repoAnalyzer.DependencyEdge) : Link :=
  {| source := repoAnalyzer.source edge; target := repoAnalyzer.target edge;
     value := Some (repoAnalyzer.value edge) |}.

End forceGraph.

Import RegExp repoAnalyzer viteConfig RepoForm.


(** ** Example repositories *)

Definition exampleCwd : string := "/srv/visualizer".
Definition exampleTempDir : string := "/tmp/repo-1700000000000".
Definition exampleUrl : string := "https://github.com/umairshaikh45/Visualizer".

(** The whole service on a clone that leaves the tree [entries]. *)
Definition analyzeTree (entries : list entry) : Settled DependencyGraph :=
  analyzeRepository exampleCwd exampleTempDir (λ _, inr (Some entries)) exampleUrl.

Definition discovered (entries : list entry) : list string :=
  getAllFiles exampleTempDir (Some entries).

Definition mapsOf (entries : list entry) : FileMaps :=
  buildFileMaps exampleCwd exampleTempDir (discovered entries).

Definition resolveIn (entries : list entry) (sourceFile importPath : string)
    : option string :=
  fastResolveImport exampleCwd exampleTempDir sourceFile importPath (mapsOf entries).

Definition inRepo (relativePath : string) : string :=
  exampleTempDir ++ "/" ++ relativePath.

Definition readExample (entries : list entry) : string → option string :=
  readFileIn exampleTempDir (Some entries).

Definition graphOfFiles (entries : list entry) : DependencyGraph :=
  analyzeFiles exampleCwd exampleTempDir (readExample entries) (discovered entries).

Definition edgesOfTree (entries : list entry) : option (list DependencyEdge) :=
  match analyzeTree entries with
  | Resolved graph => Some (edges graph)
  | Rejected _ => None
  end.

(** The id and the type of every node. *)
Definition nodeTypesOfTree (entries : list entry) : option (list (string * string)) :=
  match analyzeTree entries with
  | Resolved graph => Some (map (λ node, (id node, type node)) (nodes graph))
  | Rejected _ => None
  end.

Definition lineFeed : string := String "010" "".

(** Scenario A of the specification. *)
Definition scenarioA : list entry :=
  [ File "a.ts" (Some "import { b } from './b'");
    File "b.ts" (Some "") ].

(** Scenario B: [index.ts] imports [./utils], and [utils/index.ts]
    exists. *)
Definition scenarioB : list entry :=
  [ File "index.ts" (Some "import { x } from './utils';");
    Directory "utils" (Some [ File "index.ts" (Some "export const x = 1;") ]) ].

(** Scenario C: a bare import of [react] next to a file [react.ts]. *)
Definition scenarioC : list entry :=
  [ File "app.ts" (Some "import React from 'react';");
    File "react.ts" (Some "export default {};") ].

(** Two import statements with the same specifier. *)
Definition firstStatement : string := "import { x } from './b';".
Definition secondStatement : string := "import { y } from './b';".

Definition sameSpecifierTwice (content : string) : list entry :=
  [ File "a.ts" (Some content);
    File "b.ts" (Some "export const x = 1; export const y = 2;") ].

(** Three import statements, two distinct specifiers, one target. *)
Definition twoSpellings : list entry :=
  [ File "a.ts"
      (Some ("import { x } from './b';" ++ lineFeed
             ++ "import { y } from '././b';" ++ lineFeed
             ++ "import { z } from './b';"));
    File "b.ts" (Some "export const x = 1;") ].


(** Scenario E: two files that import each other. *)
Definition scenarioE : list entry :=
  [ File "a.ts" (Some "import { b } from './b'");
    File "b.ts" (Some "import { a } from './a'") ].

(** A file whose extension is written in capitals. *)
Definition capitalExtension : list entry :=
  [ File "Foo.TS" (Some "export const foo = 1;") ].

(** A clone without any file of the allow-list. *)
Definition nothingRelevant : list entry :=
  [ File "README" (Some "nothing to see");
    File ".env" (Some "KEY=1");
    File "logo.png" None;
    Directory "node_modules" (Some [ File "index.js" (Some "") ]) ].

(** An empty file and a file that cannot be read. *)
Definition emptyAndUnreadable : list entry :=
  [ File "empty.ts" (Some ""); File "locked.ts" None ].

(** [foo.js] and [foo.jsx] side by side, without a [foo.ts]. *)
Definition jsAndJsx : list entry :=
  [ Directory "src"
      (Some [ File "foo.jsx" (Some "export const foo = 1;");
              File "foo.js" (Some "exports.foo = 1;");
              File "main.ts" (Some "import { foo } from './foo';") ]) ].

(** A specifier that points to a directory that does not exist, and a
    file of that name elsewhere. *)
Definition buttonElsewhere : list entry :=
  [ File "app.ts" (Some "import Button from './components/Button';");
    Directory "src"
      (Some [ Directory "ui" (Some [ File "Button.tsx" (Some "") ]) ]) ].

(** A file that imports two others. *)
Definition hub : list entry :=
  [ File "a.ts"
      (Some ("import { b } from './b'" ++ lineFeed ++ "import { c } from './c'"));
    File "b.ts" (Some "");
    File "c.ts" (Some "") ].


(** The messages of V8 for the errors of the engine. *)
Definition exampleMessages (error : EngineError) : string :=
  match error with
  | JsonSyntaxError => "Unexpected end of JSON input"
  | DestructuringNull =>
      "Cannot destructure property 'repoUrl' of 'data' as it is null."
  | TrimIsNotAFunction => "repoUrl.trim is not a function"
  end.

(** A file that cannot be read and a file that imports it. *)
Definition lockedAmongOthers : list entry :=
  [ File "a.ts" (Some "import { locked } from './locked'");
    File "locked.ts" None ].

(** ** Invariants used in the proofs *)

(** Every path the lookup maps can hand out is one of [ids]. *)
Definition mapsWithin (ids : list string) (maps : FileMaps) : Prop :=
  (∀ k v, JSMap.get k (fileMap maps) = Some v → v ∈ ids)
  ∧ (∀ d (dirFiles : gset string) x,
       filesByDirectory maps !! d = Some dirFiles → x ∈ dirFiles → x ∈ ids).

(** A suspended callback of the extraction over [files]: it belongs to
    one of the files and waits for the resolution of one specifier. *)
Definition suspendedOf (cwd tempDir : string) (maps : FileMaps)
    (files : list string) (s : Suspended) : Prop :=
  s_file s ∈ files
  ∧ ∃ importPath,
      s_resolvedTarget s = fastResolveImport cwd tempDir (s_file s) importPath maps.

(** The connection counts are the numbers of edges at each node. *)
Definition countsAgree (acc : Accumulator) : Prop :=
  ∀ key, default 0 (connectionCounts acc !! key)
         = connectionCount key (acc_edges acc).

(** The edges a suspended callback has still to push: the one it waits
    for and those of the specifiers left in its loop. *)
Definition suspendedEdges (cwd tempDir : string) (maps : FileMaps)
    (s : Suspended) : list DependencyEdge :=
  (edgeOfTarget cwd tempDir (s_file s) (s_resolvedTarget s)
   ++ flat_map (edgesOfSpecifier cwd tempDir maps (s_file s))
        (List.filter isRelativeSpecifier (s_rest s)))%list.

(** The edges owed to the relative specifiers of the cached content of
    [file]. *)
Definition batchEdgesOfFile (cwd tempDir : string) (maps : FileMaps)
    (fileContents : gmap string string) (file : string) : list DependencyEdge :=
  flat_map (edgesOfSpecifier cwd tempDir maps file)
    (List.filter isRelativeSpecifier
       (extractImports
          (default "" (fileContents !! relativeOf cwd tempDir file)))).

(** A specifier as [extractImports] stores it. *)
Definition cleanSpecifier (importPath : string) : Prop :=
  importPath ≠ ""
  ∧ JS.trim importPath = importPath
  ∧ ∀ c, c ∈ list_ascii_of_string importPath → JS.is_quote c = false.

(** The traversal without its batches: the entries of a directory one
    after the other, each with all that lies below it. *)
Fixpoint visitInOrder (currentDir : string) (e : entry) {struct e} : list string :=
  if JS.startsWith (entryName e) "." && negb (String.eqb (entryName e) ".env")
  then []
  else
    let fullPath := path.join [currentDir; entryName e] in
    match e with
    | Directory name listing =>
        if bool_decide (name ∈ skipDirs) then []
        else
          match listing with
          | None => []
          | Some entries =>
              (fix each (es : list entry) : list string :=
                 match es with
                 | [] => []
                 | e' :: es' => (visitInOrder fullPath e' ++ each es')%list
                 end) entries
          end
    | File name _ =>
        let ext := JS.toLowerCase (path.extname name) in
        if bool_decide (ext ∈ relevantExtensions) then [fullPath] else []
    end.

Definition traverseInOrder (currentDir : string) (listing : option (list entry))
    : list string :=
  flat_map (visitInOrder currentDir) (default [] listing).



(** A node without importance and the links at it. *)
Definition exampleNode : forceGraph.Node :=
  {| forceGraph.id := "src/main.ts"; forceGraph.label := "main.ts";
     forceGraph.type := Some "ts"; forceGraph.group := None;
     forceGraph.importance := None; forceGraph.lines := Some 10%nat |}.

Definition exampleLinks : list forceGraph.Link :=
  [ {| forceGraph.source := "src/main.ts"; forceGraph.target := "src/a.ts";
       forceGraph.value := Some 1%nat |};
    {| forceGraph.source := "src/b.ts"; forceGraph.target := "src/main.ts";
       forceGraph.value := Some 1%nat |};
    {| forceGraph.source := "src/a.ts"; forceGraph.target := "src/b.ts";
       forceGraph.value := Some 1%nat |} ].

(** A string without a separator, and a string of separators. *)
Definition plainName (name : string) : bool :=
  forallb path.notSep (list_ascii_of_string name).

Definition allSeps (s : string) : bool :=
  forallb path.isSep (list_ascii_of_string s).

(** [type] is the name of a property that every object literal
    inherits, where the lookup in a table gives no number. *)
Definition inheritedType (type : string) : bool :=
  forceGraph.oneOfStrings type forceGraph.inheritedKeys.

(** An edge as the extraction pushes it, for the relative paths [ids]. *)
Definition wellFormedEdge (ids : list string) (e : DependencyEdge) : Prop :=
  source e ∈ ids ∧ target e ∈ ids ∧ source e ≠ target e ∧ value e = 1%nat.

(** * Properties *)

(** ** The path module on the paths of the analyzer *)

Example path_dirname_examples :
  path.dirname "utils" = "."
  ∧ path.dirname "src/utils" = "src"
  ∧ path.dirname "/tmp/repo-1/index.ts" = "/tmp/repo-1"
  ∧ path.dirname "index.ts" = "."
  ∧ path.dirname "/index.ts" = "/".
Proof. repeat split; vm_compute; reflexivity. Qed.

Example path_basename_extname_examples :
  path.basename "/tmp/repo-1/src/Foo.TS" = "Foo.TS"
  ∧ path.basename "./utils" = "utils"
  ∧ path.extname "/tmp/repo-1/src/Foo.TS" = ".TS"
  ∧ path.extname ".env" = ""
  ∧ path.extname "README" = ""
  ∧ path.extname "a.test.ts" = ".ts".
Proof. repeat split; vm_compute; reflexivity. Qed.

Example path_resolve_relative_examples :
  path.resolve "/srv" ["/tmp/repo-1"; "./utils"] = "/tmp/repo-1/utils"
  ∧ path.resolve "/srv" ["/tmp/repo-1/src"; "../lib/./a"] = "/tmp/repo-1/lib/a"
  ∧ path.resolve "/srv" ["/tmp/repo-1/src"; "/abs/a"] = "/abs/a"
  ∧ path.relative "/srv" "/tmp/repo-1" "/tmp/repo-1/src/a.ts" = "src/a.ts"
  ∧ path.relative "/srv" "/tmp/repo-1" "/tmp/repo-1" = ""
  ∧ path.relative "/srv" "/tmp/repo-1" "/abs/a" = "../../abs/a"
  ∧ path.join [".";  "index.ts"] = "index.ts"
  ∧ path.join ["src/lib"; "index.ts"] = "src/lib/index.ts".
Proof. repeat split; vm_compute; reflexivity. Qed.

(** ** Matches consume their input *)

Lemma star_suffix {A : Type} (greedy : bool) (p : ascii → bool) (s : string)
    (k : string → option A) (x : A) :
  star greedy p s k = Some x →
  ∃ rest, k rest = Some x ∧ (String.length rest ≤ String.length s)%nat.
Proof.
  induction s as [|c s IH]; simpl.
  - intros H. exists "". split; [exact H | reflexivity].
  - destruct (p c); [|intros H; exists (String c s); split; [exact H | reflexivity]].
    destruct greedy.
    + destruct (star true p s k) as [r|] eqn:Hstar.
      * intros [= <-]. destruct (IH eq_refl) as (rest & Hk & Hlen).
        exists rest. split; [exact Hk | lia].
      * intros H. exists (String c s). split; [exact H | reflexivity].
    + destruct (k (String c s)) as [r|] eqn:Hk.
      * intros [= <-]. exists (String c s). split; [exact Hk | reflexivity].
      * intros H. destruct (IH H) as (rest & Hk' & Hlen).
        exists rest. split; [exact Hk' | lia].
Qed.

Lemma run_suffix {A : Type} (r : regex) :
  ∀ (s : string) (caps : captures) (k : string → captures → option A) (x : A),
    run r s caps k = Some x →
    ∃ rest caps', k rest caps' = Some x
                  ∧ (String.length rest ≤ String.length s)%nat.
Proof.
  induction r as [|c|p|greedy p|r1 IH1 r2 IH2|n r IH]; intros s caps k x; simpl.
  - intros H. exists s, caps. split; [exact H | reflexivity].
  - destruct s as [|c' s]; [discriminate|].
    destruct (Ascii.eqb c c'); [|discriminate].
    intros H. exists s, caps. split; [exact H | simpl; lia].
  - destruct s as [|c' s]; [discriminate|].
    destruct (p c'); [|discriminate].
    intros H. exists s, caps. split; [exact H | simpl; lia].
  - intros H. apply star_suffix in H as (rest & Hk & Hlen).
    exists rest, caps. split; [exact Hk | exact Hlen].
  - intros H. apply IH1 in H as (s1 & caps1 & H & Hlen1).
    apply IH2 in H as (s2 & caps2 & H & Hlen2).
    exists s2, caps2. split; [exact H | lia].
  - intros H. apply IH in H as (rest & caps' & H & Hlen).
    eexists rest, _. split; [exact H | exact Hlen].
Qed.

Lemma literal_start_consumes (c : ascii) (r1 r2 : regex) (s : string)
    (len : nat) (caps : captures) :
  matchAt (Seq (Seq (Chr c) r1) r2) s = Some (len, caps) → (1 ≤ len)%nat.
Proof.
  unfold matchAt. simpl. destruct s as [|c' s]; [discriminate|].
  destruct (Ascii.eqb c c'); [|discriminate].
  intros H. apply run_suffix in H as (s1 & caps1 & H & Hlen1).
  apply run_suffix in H as (s2 & caps2 & H & Hlen2).
  injection H as <- _. simpl. lia.
Qed.

(** No pattern of the analyzer matches the empty string, so the loop
    over [exec] always moves on. *)
Lemma IMPORT_PATTERNS_consume (r : regex) (s : string) (len : nat)
    (caps : captures) :
  r ∈ IMPORT_PATTERNS → matchAt r s = Some (len, caps) → (1 ≤ len)%nat.
Proof.
  unfold IMPORT_PATTERNS. intros Hin.
  repeat (apply elem_of_cons in Hin as [->|Hin];
          [apply literal_start_consumes|]).
  by apply elem_of_nil in Hin.
Qed.

(** ** Loops and maps *)

Lemma firstHit_Some {A B : Type} (body : A → option B) (l : list A) (r : B) :
  firstHit body l = Some r → ∃ x, x ∈ l ∧ body x = Some r.
Proof.
  induction l as [|x l IH]; simpl; [discriminate|].
  destruct (body x) as [r'|] eqn:Hx.
  - intros [= <-]. exists x. split; [left | exact Hx].
  - intros H. destruct (IH H) as (y & Hy & Hb). exists y. split; [by right | exact Hb].
Qed.

Lemma JSMap_get_set (k k' v : string) (m : JSMap.t) :
  JSMap.get k' (JSMap.set k v m)
  = if String.eqb k k' then Some v else JSMap.get k' m.
Proof.
  induction m as [|[k0 v0] m IH]; simpl.
  - destruct (String.eqb k k'); reflexivity.
  - destruct (String.eqb_spec k0 k) as [->|Hne]; simpl.
    + destruct (String.eqb k k'); reflexivity.
    + rewrite IH. destruct (String.eqb_spec k0 k') as [->|Hne'];
        [|reflexivity].
      destruct (String.eqb_spec k k') as [->|]; [congruence | reflexivity].
Qed.

Lemma slices_within {A : Type} (fuel n : nat) (l : list A) (batch : list A) (x : A) :
  batch ∈ slices fuel n l → x ∈ batch → x ∈ l.
Proof.
  revert l. induction fuel as [|fuel IH]; intros l; simpl.
  - intros H. by apply elem_of_nil in H.
  - destruct l as [|y l']; [intros H; by apply elem_of_nil in H|].
    intros [->|Hin]%elem_of_cons Hx.
    + eapply subseteq_take; exact Hx.
    + eapply subseteq_drop. eapply IH; eassumption.
Qed.

Lemma slices_concat {A : Type} (fuel n : nat) (l : list A) :
  (0 < n)%nat → (length l ≤ fuel)%nat → concat (slices fuel n l) = l.
Proof.
  intros Hn. revert l. induction fuel as [|fuel IH]; intros l Hl; simpl.
  - destruct l; [reflexivity | simpl in Hl; lia].
  - destruct l as [|y l']; [reflexivity|].
    simpl. rewrite IH.
    + apply (take_drop n (y :: l')).
    + rewrite length_drop. simpl in *. lia.
Qed.

Lemma batches_concat {A : Type} (n : nat) (l : list A) :
  (0 < n)%nat → concat (batches n l) = l.
Proof. intros Hn. apply slices_concat; [exact Hn | reflexivity]. Qed.

(** ** Importance *)

Lemma connectionCount_snoc (key : string) (edges : list DependencyEdge)
    (e : DependencyEdge) :
  connectionCount key (edges ++ [e])
  = (connectionCount key edges
     + if String.eqb (source e) key || String.eqb (target e) key then 1 else 0)%nat.
Proof.
  unfold connectionCount. rewrite List.filter_app, length_app. simpl.
  destruct (_ || _); reflexivity.
Qed.

Lemma bump_lookup (k key : string) (counts : gmap string nat) :
  default 0%nat (bump k counts !! key)
  = (default 0%nat (counts !! key) + if String.eqb k key then 1 else 0)%nat.
Proof.
  unfold bump. destruct (String.eqb_spec k key) as [->|Hne].
  - rewrite lookup_insert_eq. reflexivity.
  - rewrite lookup_insert_ne by exact Hne. simpl. lia.
Qed.

Lemma importance_default (type : string) :
  type ∉ map fst importanceMap → getFileTypeImportance type = 3%nat.
Proof.
  unfold getFileTypeImportance.
  induction importanceMap as [|[k v] table IH]; simpl; [reflexivity|].
  intros Hnot. apply not_elem_of_cons in Hnot as [Hne Hnot].
  destruct (String.eqb_spec k type) as [->|_]; [congruence|].
  apply IH, Hnot.
Qed.

Lemma importance_bounds (type : string) :
  (3 ≤ getFileTypeImportance type ≤ 8)%nat.
Proof.
  unfold getFileTypeImportance, importanceMap. cbn [firstHit fst snd].
  repeat (destruct (String.eqb _ type); [lia|]). lia.
Qed.

(** ** Counting edges *)

Lemma edgeCount_app (from to : string) (l1 l2 : list DependencyEdge) :
  edgeCount from to (l1 ++ l2) = (edgeCount from to l1 + edgeCount from to l2)%nat.
Proof. unfold edgeCount. by rewrite List.filter_app, length_app. Qed.

Lemma edgeCount_Permutation (from to : string) (l1 l2 : list DependencyEdge) :
  l1 ≡ₚ l2 → edgeCount from to l1 = edgeCount from to l2.
Proof.
  unfold edgeCount. induction 1 as [|e l1 l2 _ IH|e1 e2 l|l1 l2 l3 _ IH1 _ IH2]; simpl.
  - reflexivity.
  - destruct (_ && _); simpl; by rewrite IH.
  - do 2 destruct (_ && _); reflexivity.
  - by rewrite IH1.
Qed.

Lemma edgeCount_flat_map_0 {A : Type} (from to : string)
    (f : A → list DependencyEdge) (l : list A) :
  (∀ x, x ∈ l → edgeCount from to (f x) = 0%nat) →
  edgeCount from to (flat_map f l) = 0%nat.
Proof.
  induction l as [|x l IH]; intros H; simpl; [reflexivity|].
  rewrite edgeCount_app, H by left. apply IH. intros y Hy. apply H. by right.
Qed.

(** ** The set of specifiers *)

Lemma setAdd_NoDup (x : string) (set : list string) :
  NoDup set → NoDup (setAdd x set).
Proof.
  intros Hset. unfold setAdd. case_bool_decide as Hin; [exact Hset|].
  apply NoDup_app. split; [exact Hset|]. split; [|apply NoDup_singleton].
  intros y Hy Hy'. apply list_elem_of_singleton in Hy' as ->. exact (Hin Hy).
Qed.

Lemma addMatch_NoDup (imports : list string) (m : captures) :
  NoDup imports → NoDup (addMatch imports m).
Proof.
  intros H. unfold addMatch.
  destruct (JS.orElse (m 1%nat) (m 2%nat)); [|exact H].
  destruct (_ && _); [|exact H].
  destruct (JS.truthy _); [by apply setAdd_NoDup | exact H].
Qed.

Lemma fold_addMatch_NoDup (ms : list captures) (imports : list string) :
  NoDup imports → NoDup (fold_left addMatch ms imports).
Proof.
  revert imports. induction ms as [|m ms IH]; intros imports H; simpl;
    [exact H | by apply IH, addMatch_NoDup].
Qed.

Lemma extractImports_NoDup (content : string) : NoDup (extractImports content).
Proof.
  unfold extractImports. generalize (NoDup_nil_2 (A := string)).
  generalize (@nil string). induction IMPORT_PATTERNS as [|r rs IH];
    intros imports H; simpl; [exact H | by apply IH, fold_addMatch_NoDup].
Qed.

Section AnalyzerFacts.

Variable cwd : string.
Variable tempDir : string.
Variable readFile : string → option string.

#[local] Abbreviation relativeOf := (relativeOf cwd tempDir).
#[local] Abbreviation fastResolveImport := (fastResolveImport cwd tempDir).
#[local] Abbreviation buildFileMaps := (buildFileMaps cwd tempDir).
#[local] Abbreviation addFile := (addFile cwd tempDir).
#[local] Abbreviation pushEdge := (pushEdge cwd tempDir).
#[local] Abbreviation runToAwait := (runToAwait cwd tempDir).
#[local] Abbreviation startFile := (startFile cwd tempDir).
#[local] Abbreviation drain := (drain cwd tempDir).
#[local] Abbreviation processBatch := (processBatch cwd tempDir).
#[local] Abbreviation extractEdges := (extractEdges cwd tempDir readFile).
#[local] Abbreviation analyzeFiles := (analyzeFiles cwd tempDir readFile).
#[local] Abbreviation makeNode := (makeNode cwd tempDir readFile).
#[local] Abbreviation edgeOfTarget := (edgeOfTarget cwd tempDir).
#[local] Abbreviation edgesOfSpecifier := (edgesOfSpecifier cwd tempDir).
#[local] Abbreviation suspendedEdges := (suspendedEdges cwd tempDir).

(** *** The lookup maps only know discovered files *)

Lemma addFile_within (ids : list string) (maps : FileMaps) (file : string) :
  mapsWithin ids maps → relativeOf file ∈ ids → mapsWithin ids (addFile maps file).
Proof.
  intros [Hmap Hdir] Hin. split; simpl.
  - intros k v. rewrite JSMap_get_set.
    destruct (String.eqb _ k); [intros [= <-]; exact Hin | apply Hmap].
  - intros d dirFiles x.
    destruct (decide (path.dirname (relativeOf file) = d)) as [<-|Hne].
    + rewrite lookup_insert_eq. intros [= <-] Hx.
      apply elem_of_union in Hx as [Hx|Hx].
      * destruct (filesByDirectory maps !! path.dirname (relativeOf file))
          as [old|] eqn:Hold; simpl in Hx.
        -- eapply Hdir; eassumption.
        -- by apply not_elem_of_empty in Hx.
      * apply elem_of_singleton in Hx as ->. exact Hin.
    + rewrite lookup_insert_ne by exact Hne. apply Hdir.
Qed.

Lemma fold_addFile_within (ids : list string) (files : list string) (maps : FileMaps) :
  mapsWithin ids maps → (∀ file, file ∈ files → relativeOf file ∈ ids) →
  mapsWithin ids (fold_left addFile files maps).
Proof.
  revert maps. induction files as [|file files IH]; intros maps Hm Hall; simpl.
  - exact Hm.
  - apply IH.
    + apply addFile_within; [exact Hm | apply Hall; left].
    + intros f Hf. apply Hall. by right.
Qed.

Lemma buildFileMaps_within (files : list string) :
  mapsWithin (map relativeOf files) (buildFileMaps files).
Proof.
  apply fold_addFile_within.
  - split; simpl.
    + intros k v [=].
    + intros d dirFiles x H. by rewrite lookup_empty in H.
  - intros file Hin. apply list_elem_of_fmap. exists file. split; [reflexivity | exact Hin].
Qed.

Lemma fastResolveImport_within (ids : list string) (maps : FileMaps)
    (sourceFile importPath resolvedTarget : string) :
  mapsWithin ids maps →
  fastResolveImport sourceFile importPath maps = Some resolvedTarget →
  resolvedTarget ∈ ids.
Proof.
  intros [Hmap Hdir]. unfold repoAnalyzer.fastResolveImport.
  set (relativePath := path.relative cwd tempDir _).
  destruct (firstHit _ extensions) as [found|] eqn:Hexact.
  { intros [= <-]. apply firstHit_Some in Hexact as (ext & _ & Hext).
    destruct (JSMap.has _ _); [|discriminate]. eapply Hmap, Hext. }
  clear Hexact.
  destruct (filesByDirectory maps !! path.dirname relativePath)
    as [dirFiles|] eqn:Hd; lazy beta iota.
  - destruct (firstHit _ extensions) as [found|] eqn:Hindex; lazy beta iota.
    { intros [= <-]. apply firstHit_Some in Hindex as (ext & _ & Hext).
      case_bool_decide as Hin; [|discriminate].
      injection Hext as <-. eapply Hdir; eassumption. }
    intros H. apply firstHit_Some in H as (ext & _ & Hext).
    apply firstHit_Some in Hext as (mapPath & _ & Hkey).
    destruct (String.eqb _ _); [|discriminate]. eapply Hmap, Hkey.
  - intros H. apply firstHit_Some in H as (ext & _ & Hext).
    apply firstHit_Some in Hext as (mapPath & _ & Hkey).
    destruct (String.eqb _ _); [|discriminate]. eapply Hmap, Hkey.
Qed.

(** *** The callbacks of the extraction *)

Lemma runToAwait_Some (maps : FileMaps) (file : string)
    (importMatches : list string) (s : Suspended) :
  runToAwait maps file importMatches = Some s →
  s_file s = file
  ∧ (length (s_rest s) < length importMatches)%nat
  ∧ ∃ importPath,
      importPath ∈ importMatches
      ∧ isRelativeSpecifier importPath = true
      ∧ s_resolvedTarget s = fastResolveImport file importPath maps.
Proof.
  induction importMatches as [|importPath rest IH]; simpl; [discriminate|].
  destruct (isRelativeSpecifier importPath) eqn:Hrel.
  - intros [= <-]. simpl. split; [reflexivity|]. split; [lia|].
    exists importPath. split; [left|]. split; [exact Hrel | reflexivity].
  - intros H. destruct (IH H) as (Hf & Hlen & p & Hp & Hr & Ht).
    split; [exact Hf|]. split; [lia|].
    exists p. split; [by right|]. split; [exact Hr | exact Ht].
Qed.

Lemma runToAwait_suspendedOf (maps : FileMaps) (files : list string)
    (file : string) (importMatches : list string) (s : Suspended) :
  file ∈ files → runToAwait maps file importMatches = Some s →
  suspendedOf cwd tempDir maps files s.
Proof.
  intros Hin H. apply runToAwait_Some in H as (Hf & _ & p & _ & _ & Ht).
  split; [by rewrite Hf|]. exists p. by rewrite Hf.
Qed.

(** An invariant of the accumulator that every resumption keeps is kept
    by the queue, by a batch and by the whole extraction. *)
Section Invariant.

Variable maps : FileMaps.
Variable fileContents : gmap string string.
Variable files : list string.
Variable P : Accumulator → Prop.
Hypothesis P_pushEdge :
  ∀ s acc, suspendedOf cwd tempDir maps files s → P acc → P (pushEdge s acc).

Lemma drain_invariant (fuel : nat) (queue : list Suspended) (acc : Accumulator) :
  Forall (suspendedOf cwd tempDir maps files) queue → P acc →
  P (drain maps fuel queue acc).
Proof.
  revert queue acc. induction fuel as [|fuel IH]; intros queue acc Hq Hacc;
    simpl; [exact Hacc|].
  destruct queue as [|s queue]; [exact Hacc|].
  apply Forall_cons in Hq as [Hs Hq].
  destruct (runToAwait maps (s_file s) (s_rest s)) as [s'|] eqn:Hnext.
  - apply IH; [|by apply P_pushEdge].
    apply Forall_app. split; [exact Hq|].
    apply Forall_singleton.
    eapply runToAwait_suspendedOf; [apply Hs | exact Hnext].
  - apply IH; [exact Hq | by apply P_pushEdge].
Qed.

Lemma processBatch_invariant (batch : list string) (acc : Accumulator) :
  (∀ file, file ∈ batch → file ∈ files) → P acc →
  P (processBatch maps fileContents acc batch).
Proof.
  intros Hsub Hacc. apply drain_invariant; [|exact Hacc].
  apply Forall_forall. intros s Hs.
  apply list_elem_of_omap in Hs as (file & Hfile & Hstart).
  eapply runToAwait_suspendedOf; [apply Hsub, Hfile | exact Hstart].
Qed.

Lemma batches_invariant (bs : list (list string)) (acc : Accumulator) :
  (∀ batch file, batch ∈ bs → file ∈ batch → file ∈ files) → P acc →
  P (fold_left (processBatch maps fileContents) bs acc).
Proof.
  revert acc. induction bs as [|batch bs IH]; intros acc Hsub Hacc; simpl;
    [exact Hacc|].
  apply IH.
  - intros b f Hb. apply Hsub. by right.
  - apply processBatch_invariant; [|exact Hacc].
    intros f. apply Hsub. left.
Qed.

End Invariant.

Lemma extractEdges_invariant (files : list string) (P : Accumulator → Prop) :
  (∀ s acc, suspendedOf cwd tempDir (buildFileMaps files) files s →
            P acc → P (pushEdge s acc)) →
  P {| acc_edges := []; connectionCounts := ∅ |} →
  P (extractEdges files).
Proof.
  intros Hstep Hinit. unfold repoAnalyzer.extractEdges.
  eapply batches_invariant; [exact Hstep| |exact Hinit].
  intros batch file. apply slices_within.
Qed.

(** *** Nodes *)

Lemma id_score (counts : gmap string nat) (node : DependencyNode) :
  id (score counts node) = id node.
Proof. reflexivity. Qed.

Lemma node_ids (files : list string) :
  map id (nodes (analyzeFiles files)) = map relativeOf files.
Proof.
  unfold repoAnalyzer.analyzeFiles. simpl.
  rewrite !map_map. reflexivity.
Qed.

Lemma nodes_analyzeFiles (files : list string) :
  nodes (analyzeFiles files)
  = map (λ file, score (connectionCounts (extractEdges files)) (makeNode file)) files.
Proof. unfold repoAnalyzer.analyzeFiles. simpl. apply map_map. Qed.

(** *** Referential integrity *)

(** C3: for every list of discovered files, every edge of the returned
    graph has its source and its target among the ids of the returned
    nodes. *)
Theorem referential_integrity (files : list string) :
  let graph := analyzeFiles files in
  Forall (λ e, source e ∈ map id (nodes graph) ∧ target e ∈ map id (nodes graph))
    (edges graph).
Proof.
  intros graph. subst graph. rewrite node_ids.
  apply (extractEdges_invariant files
           (λ acc, Forall (λ e, source e ∈ map relativeOf files
                                ∧ target e ∈ map relativeOf files)
                     (acc_edges acc))); [|apply Forall_nil_2].
  intros s acc [Hfile (importPath & Hres)] Hacc.
  unfold repoAnalyzer.pushEdge.
  destruct (s_resolvedTarget s) as [resolvedTarget|] eqn:Htarget; [|exact Hacc].
  destruct (_ && _); [|exact Hacc]. simpl.
  apply Forall_app. split; [exact Hacc|].
  apply Forall_singleton. simpl. split.
  - apply list_elem_of_fmap_2, Hfile.
  - eapply fastResolveImport_within; [apply buildFileMaps_within|].
    symmetry. exact Hres.
Qed.

(** *** No self-edges *)

Lemma pushEdge_self (s : Suspended) (acc : Accumulator) :
  s_resolvedTarget s = Some (relativeOf (s_file s)) → pushEdge s acc = acc.
Proof.
  intros H. unfold repoAnalyzer.pushEdge. rewrite H.
  rewrite String.eqb_refl. simpl. rewrite andb_false_r. reflexivity.
Qed.

(** C4: no edge of the returned graph has its source equal to its
    target; a callback that resumes with its own file as the resolved
    target leaves the edges and the connection counts as they were. *)
Theorem no_self_edges (files : list string) :
  Forall (λ e, source e ≠ target e) (edges (analyzeFiles files))
  ∧ ∀ s acc, s_resolvedTarget s = Some (relativeOf (s_file s)) →
             pushEdge s acc = acc.
Proof.
  split; [|apply pushEdge_self].
  apply (extractEdges_invariant files
           (λ acc, Forall (λ e, source e ≠ target e) (acc_edges acc)));
    [|apply Forall_nil_2].
  intros s acc _ Hacc. unfold repoAnalyzer.pushEdge.
  destruct (s_resolvedTarget s) as [resolvedTarget|]; [|exact Hacc].
  destruct (JS.truthy resolvedTarget); simpl; [|exact Hacc].
  destruct (String.eqb_spec resolvedTarget (relativeOf (s_file s))) as [|Hne];
    simpl; [exact Hacc|].
  apply Forall_app. split; [exact Hacc|].
  apply Forall_singleton. simpl. congruence.
Qed.

(** *** Lines and size *)

Lemma split_length_pos (sep : ascii) (content : string) :
  (1 ≤ length (JS.split sep content))%nat.
Proof.
  induction content as [|c content IH]; simpl; [lia|].
  destruct (Ascii.eqb c sep); simpl; [lia|].
  destruct (JS.split sep content); simpl in *; lia.
Qed.

(** C10: every node of the returned graph has at least one line and a
    size of at least one; the node of a file that is empty or cannot be
    read has exactly one line and size one. *)
Theorem lines_and_size_positive (files : list string) :
  let graph := analyzeFiles files in
  Forall (λ node, (1 ≤ lines node)%nat ∧ (1 ≤ size node)%nat) (nodes graph)
  ∧ Forall2 (λ file node,
               id node = relativeOf file
               ∧ (readFile file = None ∨ readFile file = Some "" →
                  lines node = 1%nat ∧ size node = 1%nat))
      files (nodes graph).
Proof.
  intros graph. subst graph. rewrite nodes_analyzeFiles. split.
  - apply Forall_forall. intros node Hnode.
    apply list_elem_of_fmap in Hnode as (file & -> & _). simpl.
    split; [apply split_length_pos | lia].
  - apply Forall2_fmap_r, Forall_Forall2_diag, Forall_forall.
    intros file _. split; [reflexivity|]. simpl.
    unfold repoAnalyzer.contentOf. intros [-> | ->]; simpl; split; reflexivity.
Qed.

(** *** Connection counts and importance *)

Lemma pushEdge_countsAgree (s : Suspended) (acc : Accumulator) :
  countsAgree acc → countsAgree (pushEdge s acc).
Proof.
  intros Hacc. unfold repoAnalyzer.pushEdge.
  destruct (s_resolvedTarget s) as [resolvedTarget|]; [|exact Hacc].
  destruct (JS.truthy resolvedTarget); simpl; [|exact Hacc].
  destruct (String.eqb_spec resolvedTarget (relativeOf (s_file s))) as [|Hne];
    simpl; [exact Hacc|].
  intros key. simpl. rewrite connectionCount_snoc, !bump_lookup, Hacc. simpl.
  destruct (String.eqb_spec (relativeOf (s_file s)) key) as [Hs|_];
    destruct (String.eqb_spec resolvedTarget key) as [Ht|_]; simpl;
    try lia; congruence.
Qed.

Lemma extractEdges_countsAgree (files : list string) :
  countsAgree (extractEdges files).
Proof.
  apply extractEdges_invariant.
  - intros s acc _. apply pushEdge_countsAgree.
  - intros key. simpl. rewrite lookup_empty. reflexivity.
Qed.

Lemma type_makeNode_truthy (file : string) :
  JS.truthy (type (makeNode file)) = true.
Proof.
  simpl. destruct (JS.truthy (JS.slice1 (path.extname file))) eqn:H;
    [exact H | reflexivity].
Qed.

(** *** The edges of the extraction, up to their order *)

Lemma pushEdge_edges (s : Suspended) (acc : Accumulator) :
  acc_edges (pushEdge s acc)
  = (acc_edges acc ++ edgeOfTarget (s_file s) (s_resolvedTarget s))%list.
Proof.
  unfold repoAnalyzer.pushEdge, repoAnalyzer.edgeOfTarget.
  destruct (s_resolvedTarget s) as [resolvedTarget|];
    [|by rewrite app_nil_r].
  destruct (_ && _); simpl; [reflexivity | by rewrite app_nil_r].
Qed.

Lemma runToAwait_edges (maps : FileMaps) (file : string)
    (importMatches : list string) :
  flat_map (edgesOfSpecifier maps file)
    (List.filter isRelativeSpecifier importMatches)
  = from_option (suspendedEdges maps) [] (runToAwait maps file importMatches).
Proof.
  induction importMatches as [|importPath rest IH]; simpl; [reflexivity|].
  destruct (isRelativeSpecifier importPath); simpl; [reflexivity | exact IH].
Qed.

Lemma pending_runToAwait (maps : FileMaps) (s s' : Suspended) :
  runToAwait maps (s_file s) (s_rest s) = Some s' →
  (pending s' < pending s)%nat ∧ s_file s' = s_file s.
Proof.
  intros H. apply runToAwait_Some in H as (Hf & Hlen & _).
  unfold pending. split; [lia | exact Hf].
Qed.

Lemma queueWeight_cons (s : Suspended) (queue : list Suspended) :
  queueWeight (s :: queue) = (pending s + queueWeight queue)%nat.
Proof. reflexivity. Qed.

Lemma queueWeight_snoc (queue : list Suspended) (s : Suspended) :
  queueWeight (queue ++ [s]) = (queueWeight queue + pending s)%nat.
Proof.
  unfold queueWeight. rewrite map_app, list_sum_app.
  change (list_sum (map pending [s])) with (pending s + 0)%nat. lia.
Qed.

(** With the fuel [processBatch] gives it, the queue runs until it is
    empty: no edge that a callback has still to push is lost. *)
Lemma drain_edges (maps : FileMaps) (fuel : nat) (queue : list Suspended)
    (acc : Accumulator) :
  (queueWeight queue ≤ fuel)%nat →
  acc_edges (drain maps fuel queue acc)
  ≡ₚ acc_edges acc ++ flat_map (suspendedEdges maps) queue.
Proof.
  revert queue acc. induction fuel as [|fuel IH]; intros queue acc Hfuel.
  - destruct queue as [|s queue]; simpl; [by rewrite app_nil_r|].
    rewrite queueWeight_cons in Hfuel. unfold pending in Hfuel. lia.
  - destruct queue as [|s queue]; simpl; [by rewrite app_nil_r|].
    rewrite queueWeight_cons in Hfuel.
    unfold suspendedEdges at 1. rewrite runToAwait_edges.
    destruct (runToAwait maps (s_file s) (s_rest s)) as [s'|] eqn:Hnext; simpl.
    + apply pending_runToAwait in Hnext as [Hlt _].
      rewrite IH by (rewrite queueWeight_snoc; lia).
      rewrite pushEdge_edges, flat_map_app. simpl. rewrite app_nil_r.
      rewrite <- !app_assoc. do 2 f_equiv. apply Permutation_app_comm.
    + assert (Hp : (1 ≤ pending s)%nat) by (unfold pending; lia).
      rewrite IH by lia.
      rewrite pushEdge_edges, app_nil_r, <- app_assoc. reflexivity.
Qed.

Lemma startFile_edges (maps : FileMaps) (fileContents : gmap string string)
    (file : string) :
  batchEdgesOfFile cwd tempDir maps fileContents file
  = from_option (suspendedEdges maps) [] (startFile maps fileContents file).
Proof. unfold batchEdgesOfFile. apply runToAwait_edges. Qed.

Lemma queue_edges (maps : FileMaps) (fileContents : gmap string string)
    (batch : list string) :
  flat_map (suspendedEdges maps) (omap (startFile maps fileContents) batch)
  = flat_map (batchEdgesOfFile cwd tempDir maps fileContents) batch.
Proof.
  induction batch as [|file batch IH]; [reflexivity|].
  cbn [flat_map]. rewrite startFile_edges, <- IH.
  generalize (startFile maps fileContents). intros start. simpl.
  destruct (start file); reflexivity.
Qed.

Lemma processBatch_edges (maps : FileMaps) (fileContents : gmap string string)
    (batch : list string) (acc : Accumulator) :
  acc_edges (processBatch maps fileContents acc batch)
  ≡ₚ acc_edges acc
     ++ flat_map (batchEdgesOfFile cwd tempDir maps fileContents) batch.
Proof.
  unfold repoAnalyzer.processBatch.
  rewrite drain_edges by reflexivity. by rewrite queue_edges.
Qed.

Lemma batches_edges (maps : FileMaps) (fileContents : gmap string string)
    (bs : list (list string)) (acc : Accumulator) :
  acc_edges (fold_left (processBatch maps fileContents) bs acc)
  ≡ₚ acc_edges acc
     ++ flat_map (batchEdgesOfFile cwd tempDir maps fileContents) (concat bs).
Proof.
  revert acc. induction bs as [|batch bs IH]; intros acc; simpl;
    [by rewrite app_nil_r|].
  rewrite IH, processBatch_edges, flat_map_app, app_assoc. reflexivity.
Qed.

Lemma batchSizeOf_pos (files : list string) : (0 < batchSizeOf files)%nat.
Proof. unfold batchSizeOf. lia. Qed.

Lemma extractEdges_edges (files : list string) :
  acc_edges (extractEdges files) ≡ₚ flat_map (edgesOfFile cwd tempDir readFile files) files.
Proof.
  unfold repoAnalyzer.extractEdges. rewrite batches_edges. simpl.
  rewrite batches_concat by apply batchSizeOf_pos. reflexivity.
Qed.

(** *** Bare specifiers *)

(** C6: the loop of a file passes over a bare specifier without
    resolving it or suspending on it; the edges of the returned graph
    are, up to their order, the edges owed to the relative specifiers of
    the files; when every extracted specifier is bare the graph has no
    edge, whatever files exist. *)
Theorem bare_specifiers_produce_no_edges (files : list string) :
  (∀ maps file importPath rest,
     isRelativeSpecifier importPath = false →
     runToAwait maps file (importPath :: rest) = runToAwait maps file rest)
  ∧ edges (analyzeFiles files)
    ≡ₚ flat_map (edgesOfFile cwd tempDir readFile files) files
  ∧ ((∀ file, file ∈ files →
        Forall (λ importPath, isRelativeSpecifier importPath = false)
          (cachedImports cwd tempDir readFile files file)) →
     edges (analyzeFiles files) = []).
Proof.
  split; [|split].
  - intros maps file importPath rest H. simpl. by rewrite H.
  - apply extractEdges_edges.
  - intros Hbare. apply Permutation_nil_r.
    change (edges (analyzeFiles files)) with (acc_edges (extractEdges files)).
    rewrite extractEdges_edges.
    assert (Hnone : ∀ l, (∀ file, file ∈ l → file ∈ files) →
              flat_map (edgesOfFile cwd tempDir readFile files) l = []).
    { induction l as [|file l IH]; intros Hl; simpl; [reflexivity|].
      rewrite IH by (intros f Hf; apply Hl; by right). rewrite app_nil_r.
      unfold edgesOfFile.
      specialize (Hbare file (Hl file ltac:(left))).
      induction Hbare as [|importPath rest Hb _ IHrest]; simpl; [reflexivity|].
      rewrite Hb. exact IHrest. }
    rewrite Hnone; [reflexivity | auto].
Qed.

(** *** Edges between the same two files *)

Lemma cacheContents_fold_other (files : list string) (m : gmap string string)
    (key : string) :
  key ∉ map relativeOf files →
  fold_left (λ fileContents file,
               <[relativeOf file := contentOf readFile file]> fileContents)
    files m !! key = m !! key.
Proof.
  revert m. induction files as [|f files IH]; intros m Hnot; simpl;
    [reflexivity|].
  apply not_elem_of_cons in Hnot as [Hne Hnot].
  rewrite IH by exact Hnot. by rewrite lookup_insert_ne.
Qed.

Lemma cacheContents_lookup (files : list string) (file : string) :
  NoDup (map relativeOf files) → file ∈ files →
  cacheContents cwd tempDir readFile files !! relativeOf file
  = Some (contentOf readFile file).
Proof.
  unfold cacheContents. generalize (∅ : gmap string string).
  induction files as [|f files IH]; intros m Hnodup Hin; simpl.
  - by apply elem_of_nil in Hin.
  - apply NoDup_cons in Hnodup as [Hfresh Hnodup].
    apply elem_of_cons in Hin as [->|Hin].
    + rewrite cacheContents_fold_other by exact Hfresh.
      apply lookup_insert_eq.
    + by apply IH.
Qed.

Lemma edgeCount_other_source (maps : FileMaps) (file from to : string)
    (importMatches : list string) :
  relativeOf file ≠ from →
  edgeCount from to (flat_map (edgesOfSpecifier maps file) importMatches) = 0%nat.
Proof.
  intros Hne. apply edgeCount_flat_map_0. intros importPath _.
  unfold repoAnalyzer.edgesOfSpecifier, repoAnalyzer.edgeOfTarget.
  destruct (fastResolveImport file importPath maps); [|reflexivity].
  destruct (_ && _); [|reflexivity].
  unfold edgeCount. simpl.
  destruct (String.eqb_spec (relativeOf file) from); [congruence | reflexivity].
Qed.

Lemma edgeCount_own_source (maps : FileMaps) (file to : string)
    (importMatches : list string) :
  edgeCount (relativeOf file) to
    (flat_map (edgesOfSpecifier maps file)
       (List.filter isRelativeSpecifier importMatches))
  = length (List.filter (resolvesTo cwd tempDir maps file to) importMatches).
Proof.
  induction importMatches as [|importPath rest IH]; simpl; [reflexivity|].
  unfold resolvesTo at 1.
  destruct (isRelativeSpecifier importPath); simpl; [|exact IH].
  rewrite edgeCount_app, IH.
  unfold repoAnalyzer.edgesOfSpecifier, repoAnalyzer.edgeOfTarget.
  destruct (fastResolveImport file importPath maps) as [resolvedTarget|];
    [|reflexivity].
  destruct (JS.truthy resolvedTarget && _); simpl; [|reflexivity].
  unfold edgeCount. simpl. rewrite String.eqb_refl. simpl.
  destruct (String.eqb resolvedTarget to); reflexivity.
Qed.

(** C2, as the code has it: the specifiers extracted from a file are
    pairwise distinct, and the number of edges of the returned graph
    from that file to a target is the number of those specifiers that
    are relative and resolve to the target (other than the file itself):
    one edge for every distinct specifier, not for every import
    statement. *)
Theorem one_edge_per_distinct_specifier (files : list string) (file to : string) :
  NoDup (map relativeOf files) → file ∈ files →
  NoDup (extractImports (contentOf readFile file))
  ∧ edgeCount (relativeOf file) to (edges (analyzeFiles files))
    = length (List.filter
                (resolvesTo cwd tempDir (buildFileMaps files) file to)
                (extractImports (contentOf readFile file))).
Proof.
  intros Hnodup Hin. split; [apply extractImports_NoDup|].
  change (edges (analyzeFiles files)) with (acc_edges (extractEdges files)).
  rewrite (edgeCount_Permutation _ _ _ _ (extractEdges_edges files)).
  assert (Hother : ∀ l, relativeOf file ∉ map relativeOf l →
            edgeCount (relativeOf file) to
              (flat_map (edgesOfFile cwd tempDir readFile files) l) = 0%nat).
  { intros l Hl. apply edgeCount_flat_map_0. intros f Hf.
    apply edgeCount_other_source. intros Heq. apply Hl. rewrite <- Heq.
    by apply list_elem_of_fmap_2. }
  assert (Hown : edgeCount (relativeOf file) to
                   (edgesOfFile cwd tempDir readFile files file)
                 = length (List.filter
                             (resolvesTo cwd tempDir (buildFileMaps files) file to)
                             (extractImports (contentOf readFile file)))).
  { unfold edgesOfFile, cachedImports.
    rewrite cacheContents_lookup by assumption. apply edgeCount_own_source. }
  destruct (list_elem_of_split _ _ Hin) as (l1 & l2 & Hsplit).
  rewrite Hsplit in Hnodup. rewrite map_app in Hnodup. simpl in Hnodup.
  apply NoDup_app in Hnodup as (_ & Hl1 & Hnodup).
  apply NoDup_cons in Hnodup as [Hl2 _].
  rewrite Hsplit at 2. rewrite flat_map_app. simpl.
  rewrite !edgeCount_app, Hown, !Hother; [lia | exact Hl2 |].
  intros Hl. apply (Hl1 _ Hl). left.
Qed.

(** *** Exact matches *)



Lemma fileMap_fold_keys (files : list string) (maps : FileMaps) :
  (∀ k v, JSMap.get k (fileMap maps) = Some v → k = normalizePath v) →
  ∀ k v, JSMap.get k (fileMap (fold_left addFile files maps)) = Some v →
         k = normalizePath v.
Proof.
  revert maps. induction files as [|f files IH]; intros maps Hmaps; simpl;
    [exact Hmaps|].
  apply IH. intros k v. simpl. rewrite JSMap_get_set.
  destruct (String.eqb_spec (normalizePath (relativeOf f)) k) as [<-|_];
    [by intros [= <-] | apply Hmaps].
Qed.

Lemma fileMap_fold_has (files : list string) (maps : FileMaps) (key : string) :
  is_Some (JSMap.get key (fileMap maps))
  ∨ (∃ file, file ∈ files ∧ normalizePath (relativeOf file) = key) →
  is_Some (JSMap.get key (fileMap (fold_left addFile files maps))).
Proof.
  revert maps. induction files as [|f files IH]; intros maps Hhas; simpl.
  - destruct Hhas as [H|(file & Hin & _)]; [exact H | by apply elem_of_nil in Hin].
  - apply IH. simpl. rewrite JSMap_get_set.
    destruct (String.eqb_spec (normalizePath (relativeOf f)) key) as [Hkey|Hkey];
      [left; by eexists|].
    destruct Hhas as [H|(file & Hin & Hfile)]; [by left|].
    apply elem_of_cons in Hin as [->|Hin]; [congruence|].
    right. by exists file.
Qed.



End AnalyzerFacts.

(** ** The service *)

(** A graph that [analyzeRepository] resolves with is the graph of the
    files discovered in the clone, read from the clone: what holds of
    [analyzeFiles] for all files holds of the service. *)
Lemma analyzeRepository_Resolved (cwd tempDir : string)
    (clone : string → string + option (list entry)) (repoUrl : string)
    (graph : DependencyGraph) :
  analyzeRepository cwd tempDir clone repoUrl = Resolved graph →
  ∃ tree, clone (JS.trim repoUrl) = inr tree
          ∧ graph = analyzeFiles cwd tempDir (readFileIn tempDir tree)
                      (getAllFiles tempDir tree).
Proof.
  unfold analyzeRepository.
  destruct (testAnchored githubUrl (JS.trim repoUrl)); [|discriminate]. simpl.
  destruct (clone (JS.trim repoUrl)) as [message|tree]; [discriminate|].
  intros [= <-]. by exists tree.
Qed.

(** ** Empty discoveries *)

Lemma githubUrl_nonempty (repoUrl : string) :
  testAnchored githubUrl (JS.trim repoUrl) = true → JS.truthy repoUrl = true.
Proof. destruct repoUrl; [discriminate | reflexivity]. Qed.

(** C9, as the code has it: when discovery finds no file, the analysis
    resolves with an ordinary graph whose nodes and edges are empty and
    the middleware answers 200 with it; it is the submit handler of the
    form that turns the empty node list into the error
    [No relevant files found in the repository]. *)
Theorem empty_discovery_is_reported_by_the_form (cwd tempDir : string)
    (clone : string → string + option (list entry)) (repoUrl : string)
    (tree : option (list entry)) :
  testAnchored githubUrl (JS.trim repoUrl) = true →
  clone (JS.trim repoUrl) = inr tree →
  getAllFiles tempDir tree = [] →
  analyzeRepository cwd tempDir clone repoUrl
  = Resolved {| nodes := []; edges := [] |}
  ∧ analyzeApi cwd tempDir clone (Some repoUrl)
    = {| statusCode := 200; body := GraphBody {| nodes := []; edges := [] |} |}
  ∧ handleSubmit (analyzeApi cwd tempDir clone (Some repoUrl))
    = thrown "No relevant files found in the repository".
Proof.
  intros Hurl Hclone Hfiles.
  assert (Hcore : analyzeRepository cwd tempDir clone repoUrl
                  = Resolved {| nodes := []; edges := [] |}).
  { unfold analyzeRepository. rewrite Hurl, Hclone, Hfiles. reflexivity. }
  assert (Hapi : analyzeApi cwd tempDir clone (Some repoUrl)
                 = {| statusCode := 200;
                      body := GraphBody {| nodes := []; edges := [] |} |}).
  { unfold analyzeApi. rewrite (githubUrl_nonempty _ Hurl), Hcore. reflexivity. }
  split; [exact Hcore|]. split; [exact Hapi|].
  rewrite Hapi. reflexivity.
Qed.

Lemma empty_discovery_is_reported_by_the_form_witness :
  analyzeTree nothingRelevant = Resolved {| nodes := []; edges := [] |}
  ∧ handleSubmit
      (analyzeApi exampleCwd exampleTempDir (λ _, inr (Some nothingRelevant))
         (Some exampleUrl))
    = OnError "Error: No relevant files found in the repository. Please check the repository URL and try again.".
Proof.
  destruct (empty_discovery_is_reported_by_the_form exampleCwd exampleTempDir
              (λ _, inr (Some nothingRelevant)) exampleUrl (Some nothingRelevant))
    as (Hcore & _ & Hform);
    [vm_compute; reflexivity | reflexivity | vm_compute; reflexivity |].
  split; [exact Hcore | exact Hform].
Defined.

(** C9 as the claim states it fails: a clone without any file of the
    allow-list makes the analysis resolve with a graph, not reject. *)
Lemma empty_discovery_counterexample :
  discovered nothingRelevant = []
  ∧ analyzeTree nothingRelevant = Resolved {| nodes := []; edges := [] |}.
Proof. split; vm_compute; reflexivity. Qed.

(** ** The directory index *)

(** C1 (the code departs from the claim): in scenario B both files are
    discovered, the specifier [./utils] of [index.ts] resolves to
    [index.ts] itself, found as the index file of the directory that
    holds the candidate, and the graph has no edge. *)
Theorem directory_index_misses_the_directory :
  discovered scenarioB = [inRepo "index.ts"; inRepo "utils/index.ts"]
  ∧ extractImports "import { x } from './utils';"
    = ["./utils"; "{ x } from ./utils"]
  ∧ resolveIn scenarioB (inRepo "index.ts") "./utils" = Some "index.ts"
  ∧ nodeTypesOfTree scenarioB
    = Some [("index.ts", "ts"); ("utils/index.ts", "ts")]
  ∧ edgesOfTree scenarioB = Some [].
Proof. repeat split; vm_compute; reflexivity. Qed.

(** ** The type of a node *)

(** C8 (the code departs from the claim): the file [Foo.TS] is
    discovered, its node has the type [TS], with the capitals of the
    file name, and so gets the default base importance 3 where [ts]
    has 7. *)
Theorem node_type_keeps_capitals :
  discovered capitalExtension = [inRepo "Foo.TS"]
  ∧ nodeTypesOfTree capitalExtension = Some [("Foo.TS", "TS")]
  ∧ getFileTypeImportance "TS" = 3%nat
  ∧ getFileTypeImportance "ts" = 7%nat.
Proof. repeat split; vm_compute; reflexivity. Qed.

(** ** Instances *)

Lemma one_edge_per_distinct_specifier_witness :
  edgeCount (relativeOf exampleCwd exampleTempDir (inRepo "a.ts")) "b.ts"
    (edges (analyzeFiles exampleCwd exampleTempDir (readExample twoSpellings)
              (discovered twoSpellings)))
  = 2%nat.
Proof.
  destruct (one_edge_per_distinct_specifier exampleCwd exampleTempDir
              (readExample twoSpellings) (discovered twoSpellings)
              (inRepo "a.ts") "b.ts") as [_ ->];
    [compute_done | compute_done |].
  vm_compute. reflexivity.
Defined.

(** C2 as the claim states it fails: each of the two import statements
    alone gives the edge from [a.ts] to [b.ts], and the file that holds
    both statements gives that edge once. *)
Lemma one_edge_per_statement_counterexample :
  let edge := {| source := "a.ts"; target := "b.ts"; value := 1 |} in
  edgesOfTree (sameSpecifierTwice firstStatement) = Some [edge]
  ∧ edgesOfTree (sameSpecifierTwice secondStatement) = Some [edge]
  ∧ edgesOfTree
      (sameSpecifierTwice (firstStatement ++ lineFeed ++ secondStatement))
    = Some [edge].
Proof. repeat split; vm_compute; reflexivity. Qed.

Lemma no_self_edges_witness :
  let acc := {| acc_edges := []; connectionCounts := ∅ |} in
  Forall (λ e, source e ≠ target e) (edges (graphOfFiles scenarioB))
  ∧ pushEdge exampleCwd exampleTempDir
      {| s_file := inRepo "index.ts";
         s_resolvedTarget := resolveIn scenarioB (inRepo "index.ts") "./utils";
         s_rest := [] |} acc
    = acc.
Proof.
  intros acc.
  destruct (no_self_edges exampleCwd exampleTempDir (readExample scenarioB)
              (discovered scenarioB)) as [Hedges Hself].
  split; [exact Hedges|]. apply Hself. vm_compute. reflexivity.
Defined.

Lemma bare_specifiers_produce_no_edges_witness :
  edges (graphOfFiles scenarioC) = [].
Proof.
  apply (bare_specifiers_produce_no_edges exampleCwd exampleTempDir
           (readExample scenarioC) (discovered scenarioC)).
  apply Forall_forall. compute_done.
Defined.



Lemma lines_and_size_positive_witness :
  ∃ node, nodes (graphOfFiles emptyAndUnreadable) !! 1%nat = Some node
          ∧ id node = "locked.ts" ∧ lines node = 1%nat ∧ size node = 1%nat.
Proof.
  destruct (lines_and_size_positive exampleCwd exampleTempDir
              (readExample emptyAndUnreadable) (discovered emptyAndUnreadable))
    as [_ Hfiles].
  destruct (Forall2_lookup_l _ _ _ 1%nat (inRepo "locked.ts") Hfiles)
    as (node & Hnode & Hid & Hone); [vm_compute; reflexivity|].
  exists node. split; [exact Hnode|]. split; [rewrite Hid; vm_compute; reflexivity|].
  apply Hone. left. vm_compute. reflexivity.
Defined.

(** ** The specification's scenarios *)

Example scenarioA_graph :
  nodeTypesOfTree scenarioA = Some [("a.ts", "ts"); ("b.ts", "ts")]
  ∧ edgesOfTree scenarioA
    = Some [{| source := "a.ts"; target := "b.ts"; value := 1 |}].
Proof. split; vm_compute; reflexivity. Qed.

Example scenarioC_graph :
  discovered scenarioC = [inRepo "app.ts"; inRepo "react.ts"]
  ∧ extractImports "import React from 'react';" = ["react"; "React from react"]
  ∧ edgesOfTree scenarioC = Some [].
Proof. repeat split; vm_compute; reflexivity. Qed.

Example scenarioE_graph :
  edgesOfTree scenarioE
  = Some [{| source := "a.ts"; target := "b.ts"; value := 1 |};
          {| source := "b.ts"; target := "a.ts"; value := 1 |}].
Proof. vm_compute. reflexivity. Qed.

(** Three import statements of [a.ts], two spellings of the same target:
    two edges from [a.ts] to [b.ts]. *)
Example twoSpellings_graph :
  edgesOfTree twoSpellings
  = Some [{| source := "a.ts"; target := "b.ts"; value := 1 |};
          {| source := "a.ts"; target := "b.ts"; value := 1 |}].
Proof. vm_compute. reflexivity. Qed.

(** * More of the code *)

(** ** What [extractImports] returns *)

Lemma trimStart_cases (s : string) :
  JS.trimStart s = ""
  ∨ ∃ c rest, JS.trimStart s = String c rest ∧ JS.is_space c = false.
Proof.
  induction s as [|c s IH]; simpl; [by left|].
  destruct (JS.is_space c) eqn:Hc; [exact IH|].
  right. by exists c, s.
Qed.

Lemma trimEnd_idempotent (s : string) : JS.trimEnd (JS.trimEnd s) = JS.trimEnd s.
Proof.
  induction s as [|c s IH]; simpl; [reflexivity|].
  destruct (JS.is_space c && JS.isEmpty (JS.trimEnd s)) eqn:Hc; simpl;
    [reflexivity|].
  by rewrite IH, Hc.
Qed.

Lemma trim_idempotent (s : string) : JS.trim (JS.trim s) = JS.trim s.
Proof.
  unfold JS.trim.
  destruct (trimStart_cases s) as [->|(c & rest & -> & Hc)]; [reflexivity|].
  simpl. rewrite Hc. simpl. rewrite Hc. simpl. rewrite Hc. simpl.
  by rewrite trimEnd_idempotent.
Qed.

Lemma chars_filter_chars (keep : ascii → bool) (s : string) (c : ascii) :
  c ∈ list_ascii_of_string (JS.filter_chars keep s) →
  keep c = true ∧ c ∈ list_ascii_of_string s.
Proof.
  induction s as [|c' s IH]; simpl; [intros H; by apply elem_of_nil in H|].
  destruct (keep c') eqn:Hk; simpl.
  - intros [->|H]%elem_of_cons; [split; [exact Hk | left]|].
    destruct (IH H). split; [assumption | by right].
  - intros H. destruct (IH H). split; [assumption | by right].
Qed.

Lemma chars_trimStart (s : string) (c : ascii) :
  c ∈ list_ascii_of_string (JS.trimStart s) → c ∈ list_ascii_of_string s.
Proof.
  induction s as [|c' s IH]; simpl; [done|].
  destruct (JS.is_space c'); [|done]. intros H. right. by apply IH.
Qed.

Lemma chars_trimEnd (s : string) (c : ascii) :
  c ∈ list_ascii_of_string (JS.trimEnd s) → c ∈ list_ascii_of_string s.
Proof.
  induction s as [|c' s IH]; simpl; [done|].
  destruct (JS.is_space c' && JS.isEmpty (JS.trimEnd s)); simpl;
    [intros H; by apply elem_of_nil in H|].
  intros [->|H]%elem_of_cons; [left | right; by apply IH].
Qed.

Lemma addMatch_clean (imports : list string) (m : captures) :
  Forall cleanSpecifier imports → Forall cleanSpecifier (addMatch imports m).
Proof.
  intros H. unfold addMatch.
  destruct (JS.orElse (m 1%nat) (m 2%nat)) as [importPath|]; [|exact H].
  destruct (_ && _); [|exact H].
  destruct (JS.truthy (JS.trim (JS.stripQuotes importPath))) eqn:Htruthy;
    [|exact H].
  unfold setAdd. case_bool_decide; [exact H|].
  apply Forall_app. split; [exact H|]. apply Forall_singleton.
  split; [|split].
  - intros Heq. rewrite Heq in Htruthy. discriminate.
  - apply trim_idempotent.
  - intros c Hc. apply chars_trimEnd, chars_trimStart in Hc.
    apply chars_filter_chars in Hc as [Hc _].
    by apply negb_true_iff in Hc.
Qed.

Lemma fold_addMatch_clean (ms : list captures) (imports : list string) :
  Forall cleanSpecifier imports →
  Forall cleanSpecifier (fold_left addMatch ms imports).
Proof.
  revert imports. induction ms as [|m ms IH]; intros imports H; simpl;
    [exact H | by apply IH, addMatch_clean].
Qed.

(** X1: every specifier that [extractImports] returns is not empty, has
    no white space at its ends and holds neither of the two characters
    that the code strips, the single and the double quote
    ([JS.is_quote]).  A backtick is not stripped and may remain
    ([extractImports_keeps_backticks]). *)
Theorem extractImports_clean (content : string) :
  Forall (λ importPath,
            importPath ≠ ""
            ∧ JS.trim importPath = importPath
            ∧ ∀ c, c ∈ list_ascii_of_string importPath → JS.is_quote c = false)
    (extractImports content).
Proof.
  change (Forall cleanSpecifier (extractImports content)).
  unfold extractImports. generalize (Forall_nil_2 cleanSpecifier).
  generalize (@nil string). induction IMPORT_PATTERNS as [|r rs IH];
    intros imports H; simpl; [exact H | by apply IH, fold_addMatch_clean].
Qed.

(** ** Contents without the words of the patterns *)

Lemma run_lit_prefix {A : Type} (w s : string) (caps : captures)
    (k : string → captures → option A) (x : A) :
  run (lit w) s caps k = Some x → String.prefix w s = true.
Proof.
  revert s. induction w as [|c w IH]; intros s; simpl; [by destruct s|].
  destruct s as [|c' s]; [discriminate|].
  destruct (Ascii.eqb_spec c c') as [->|Hne]; [|discriminate].
  intros H. simpl. destruct (ascii_dec c' c'); [by eapply IH | congruence].
Qed.

Lemma execAll_without_word (w : string) (r : regex) (content : string)
    (skip : nat) :
  JS.includes content w = false → execAll (Seq (lit w) r) content skip = [].
Proof.
  revert skip. induction content as [|c content IH]; intros skip H;
    [reflexivity|].
  change (JS.includes (String c content) w)
    with (String.prefix w (String c content) || JS.includes content w) in H.
  apply orb_false_iff in H as [Hprefix Hrest]. cbn [execAll].
  destruct skip as [|skip]; [|by apply IH].
  destruct (matchAt (Seq (lit w) r) (String c content)) as [[len caps]|] eqn:Hm;
    [|by apply IH].
  unfold matchAt in Hm. cbn [run] in Hm. apply run_lit_prefix in Hm.
  congruence.
Qed.

Lemma includes_prefix (s w : string) :
  String.prefix w s = true → JS.includes s w = true.
Proof. intros H. destruct s; cbn [JS.includes]; by rewrite H. Qed.

Lemma includes_tail (s w : string) (c : ascii) :
  JS.includes s (String c w) = true → JS.includes s w = true.
Proof.
  induction s as [|c' s IH]; cbn [JS.includes].
  - intros H. simpl in H. discriminate.
  - intros [H|H]%orb_true_iff; apply orb_true_iff; right.
    + simpl in H. destruct (ascii_dec c c'); [|discriminate].
      by apply includes_prefix.
    + by apply IH.
Qed.

(** X2: a content in which none of the words [import], [require],
    [from], [#include], [using] and [load] occurs has no specifier. *)
Theorem extractImports_without_words (content : string) :
  Forall (λ w, JS.includes content w = false)
    ["import"; "require"; "from"; "#include"; "using"; "load"] →
  extractImports content = [].
Proof.
  intros H.
  apply Forall_cons in H as [Himport H]. apply Forall_cons in H as [Hrequire H].
  apply Forall_cons in H as [Hfrom H]. apply Forall_cons in H as [Hinclude H].
  apply Forall_cons in H as [Husing H]. apply Forall_cons in H as [Hload _].
  assert (Hat : JS.includes content "@import" = false).
  { destruct (JS.includes content "@import") eqn:Hat; [|reflexivity].
    apply includes_tail in Hat. congruence. }
  unfold extractImports, IMPORT_PATTERNS. cbn [seq fold_left].
  rewrite !(execAll_without_word "import") by exact Himport.
  rewrite (execAll_without_word "require") by exact Hrequire.
  rewrite (execAll_without_word "from") by exact Hfrom.
  rewrite (execAll_without_word "#include") by exact Hinclude.
  rewrite (execAll_without_word "using") by exact Husing.
  rewrite (execAll_without_word "load") by exact Hload.
  rewrite (execAll_without_word "@import") by exact Hat.
  reflexivity.
Qed.

Lemma extractImports_without_words_witness :
  extractImports "export const answer = 42;" = [].
Proof.
  apply extractImports_without_words. repeat constructor.
Defined.

Lemma extractImports_clean_witness :
  ∃ importPath,
    extractImports "import { x } from './b';" !! 0%nat = Some importPath
    ∧ importPath ≠ "" ∧ JS.is_quote "." = false.
Proof.
  exists "./b". split; [vm_compute; reflexivity|].
  destruct (Forall_lookup_1 _ _ 0%nat "./b"
              (extractImports_clean "import { x } from './b';"))
    as (Hne & _ & Hquote); [vm_compute; reflexivity|].
  split; [exact Hne|]. apply Hquote. compute_done.
Defined.

Example extractImports_keeps_backticks :
  extractImports "from '`./b`'" = ["`./b`"].
Proof. vm_compute. reflexivity. Qed.

(** ** The resolver and the index *)

Lemma firstHit_app {A B : Type} (body : A → option B) (l1 l2 : list A) :
  firstHit body (l1 ++ l2)
  = match firstHit body l1 with
    | Some r => Some r
    | None => firstHit body l2
    end.
Proof.
  induction l1 as [|x l1 IH]; simpl; [reflexivity|].
  destruct (body x); [reflexivity | exact IH].
Qed.

Lemma firstHit_None {A B : Type} (body : A → option B) (l : list A) :
  Forall (λ x, body x = None) l → firstHit body l = None.
Proof.
  induction 1 as [|x l Hx _ IH]; simpl; [reflexivity|]. by rewrite Hx.
Qed.



Lemma NoDup_map_injective {A B : Type} (f : A → B) (l : list A) (x y : A) :
  NoDup (map f l) → x ∈ l → y ∈ l → f x = f y → x = y.
Proof.
  induction l as [|z l IH]; simpl; intros Hnodup Hx Hy Heq;
    [by apply elem_of_nil in Hx|].
  apply NoDup_cons in Hnodup as [Hfresh Hnodup].
  apply elem_of_cons in Hx as [->|Hx]; apply elem_of_cons in Hy as [->|Hy].
  - reflexivity.
  - destruct Hfresh. rewrite Heq. by apply list_elem_of_fmap_2.
  - destruct Hfresh. rewrite <- Heq. by apply list_elem_of_fmap_2.
  - by apply IH.
Qed.

Section AnalyzerMore.

Variable cwd : string.
Variable tempDir : string.
Variable readFile : string → option string.

#[local] Abbreviation relativeOf := (relativeOf cwd tempDir).
#[local] Abbreviation fastResolveImport := (fastResolveImport cwd tempDir).
#[local] Abbreviation buildFileMaps := (buildFileMaps cwd tempDir).
#[local] Abbreviation addFile := (addFile cwd tempDir).
#[local] Abbreviation pushEdge := (pushEdge cwd tempDir).
#[local] Abbreviation extractEdges := (extractEdges cwd tempDir readFile).
#[local] Abbreviation analyzeFiles := (analyzeFiles cwd tempDir readFile).
#[local] Abbreviation makeNode := (makeNode cwd tempDir readFile).

(** X3: whatever the source file and the specifier, a target that the
    resolver returns over the index of the discovered files is the
    relative path of one of them; over the index of no file the resolver
    returns nothing. *)
Theorem resolver_returns_discovered_file (files : list string)
    (sourceFile importPath : string) :
  (∀ resolvedTarget,
     fastResolveImport sourceFile importPath (buildFileMaps files)
     = Some resolvedTarget →
     resolvedTarget ∈ map relativeOf files)
  ∧ (files = [] →
     fastResolveImport sourceFile importPath (buildFileMaps files) = None).
Proof.
  assert (Hin : ∀ resolvedTarget,
             fastResolveImport sourceFile importPath (buildFileMaps files)
             = Some resolvedTarget →
             resolvedTarget ∈ map relativeOf files).
  { intros resolvedTarget.
    apply fastResolveImport_within, buildFileMaps_within. }
  split; [exact Hin|]. intros ->.
  destruct (fastResolveImport sourceFile importPath (buildFileMaps []))
    as [resolvedTarget|] eqn:H; [|reflexivity].
  specialize (Hin _ eq_refl). by apply elem_of_nil in Hin.
Qed.

(** X4: the exact match goes by the order of the extensions: when the
    candidate path with none of the extensions before [ext] is indexed,
    and with [ext] it is, the resolver returns what the index holds for
    it. *)
Theorem exact_match_priority (maps : FileMaps) (sourceFile importPath : string)
    (earlier later : list string) (ext found : string) :
  let candidate :=
    path.relative cwd tempDir
      (path.resolve cwd [path.dirname sourceFile; importPath]) in
  extensions = (earlier ++ ext :: later)%list →
  Forall (λ e, JSMap.has (normalizePath (candidate ++ e)) (fileMap maps) = false)
    earlier →
  JSMap.get (normalizePath (candidate ++ ext)) (fileMap maps) = Some found →
  fastResolveImport sourceFile importPath maps = Some found.
Proof.
  intros candidate Hext Hearlier Hfound.
  unfold repoAnalyzer.fastResolveImport. fold candidate.
  rewrite Hext, firstHit_app, firstHit_None.
  - cbn [firstHit]. unfold JSMap.has. rewrite Hfound. reflexivity.
  - eapply Forall_impl; [exact Hearlier|]. intros e He. simpl in He.
    by rewrite He.
Qed.


(** *** The index *)

Lemma filesByDirectory_fold (files : list string) (maps : FileMaps)
    (directory relativePath : string) :
  (∃ dirFiles : gset string,
     filesByDirectory maps !! directory = Some dirFiles
     ∧ relativePath ∈ dirFiles)
  ∨ (∃ file, file ∈ files ∧ relativeOf file = relativePath
             ∧ path.dirname relativePath = directory) →
  ∃ dirFiles : gset string,
    filesByDirectory (fold_left addFile files maps) !! directory = Some dirFiles
    ∧ relativePath ∈ dirFiles.
Proof.
  revert maps. induction files as [|f files IH]; intros maps H; simpl.
  - destruct H as [H|(file & Hin & _)]; [exact H | by apply elem_of_nil in Hin].
  - apply IH.
    destruct H as [(dirFiles & Hlook & Hin)|(file & Hin & Hrel & Hdir)].
    + left. simpl.
      destruct (decide (path.dirname (relativeOf f) = directory)) as [<-|Hne].
      * rewrite lookup_insert_eq. eexists. split; [reflexivity|].
        apply elem_of_union. left. by rewrite Hlook.
      * rewrite lookup_insert_ne by exact Hne. by exists dirFiles.
    + apply elem_of_cons in Hin as [->|Hin]; [|right; by exists file].
      left. simpl. rewrite Hrel, Hdir, lookup_insert_eq.
      eexists. split; [reflexivity|].
      apply elem_of_union. right. by apply elem_of_singleton.
Qed.

(** X6: the index knows every discovered file: [fileMap] holds, under
    the normalized path of the file, a discovered path with that
    normalized path, and [filesByDirectory] holds the relative path of
    the file in the set of its directory. *)
Theorem index_complete (files : list string) (file : string) :
  file ∈ files →
  (∃ canonical,
     JSMap.get (normalizePath (relativeOf file)) (fileMap (buildFileMaps files))
     = Some canonical
     ∧ normalizePath canonical = normalizePath (relativeOf file)
     ∧ canonical ∈ map relativeOf files)
  ∧ (∃ dirFiles : gset string,
       filesByDirectory (buildFileMaps files)
       !! path.dirname (relativeOf file) = Some dirFiles
       ∧ relativeOf file ∈ dirFiles).
Proof.
  intros Hin. split.
  - destruct (fileMap_fold_has cwd tempDir files
                {| fileMap := []; filesByBasename := ∅; filesByDirectory := ∅ |}
                (normalizePath (relativeOf file))) as [canonical Hget];
      [right; by exists file|].
    exists canonical. split; [exact Hget|]. split.
    + symmetry. eapply (fileMap_fold_keys cwd tempDir files); [|exact Hget].
      intros k v [=].
    + destruct (buildFileMaps_within cwd tempDir files) as [Hmap _].
      eapply Hmap, Hget.
  - apply filesByDirectory_fold. right. by exists file.
Qed.

(** *** The edges *)

Lemma extractEdges_wellFormed (files : list string) :
  Forall (wellFormedEdge (map relativeOf files)) (acc_edges (extractEdges files)).
Proof.
  apply (extractEdges_invariant cwd tempDir readFile files
           (λ acc, Forall (wellFormedEdge (map relativeOf files))
                     (acc_edges acc))); [|apply Forall_nil_2].
  intros s acc [Hfile (importPath & Hres)] Hacc.
  unfold repoAnalyzer.pushEdge.
  destruct (s_resolvedTarget s) as [resolvedTarget|] eqn:Htarget; [|exact Hacc].
  destruct (JS.truthy resolvedTarget); simpl; [|exact Hacc].
  destruct (String.eqb_spec resolvedTarget (relativeOf (s_file s))) as [|Hne];
    simpl; [exact Hacc|].
  apply Forall_app. split; [exact Hacc|]. apply Forall_singleton.
  split; [|split; [|split]]; simpl.
  - apply list_elem_of_fmap_2, Hfile.
  - eapply fastResolveImport_within; [apply buildFileMaps_within|].
    symmetry. exact Hres.
  - congruence.
  - reflexivity.
Qed.

Lemma connectionCount_cons (key : string) (e : DependencyEdge)
    (edges : list DependencyEdge) :
  connectionCount key (e :: edges)
  = ((if String.eqb (source e) key || String.eqb (target e) key then 1 else 0)
     + connectionCount key edges)%nat.
Proof. unfold connectionCount. simpl. destruct (_ || _); reflexivity. Qed.

Lemma list_sum_map_add {A : Type} (f g : A → nat) (l : list A) :
  list_sum (map (λ x, f x + g x)%nat l)
  = (list_sum (map f l) + list_sum (map g l))%nat.
Proof. induction l as [|x l IH]; simpl; [reflexivity | rewrite IH; lia]. Qed.

Lemma list_sum_map_0 {A : Type} (f : A → nat) (l : list A) :
  (∀ x, x ∈ l → f x = 0%nat) → list_sum (map f l) = 0%nat.
Proof.
  induction l as [|x l IH]; intros H; simpl; [reflexivity|].
  rewrite H by left. apply IH. intros y Hy. apply H. by right.
Qed.

Lemma one_occurrence (ids : list string) (key : string) :
  NoDup ids → key ∈ ids →
  list_sum (map (λ i, if String.eqb key i then 1 else 0)%nat ids) = 1%nat.
Proof.
  induction ids as [|i ids IH]; intros Hnodup Hin; [by apply elem_of_nil in Hin|].
  apply NoDup_cons in Hnodup as [Hfresh Hnodup]. simpl.
  destruct (String.eqb_spec key i) as [->|Hne].
  - rewrite list_sum_map_0; [reflexivity|].
    intros x Hx. destruct (String.eqb_spec i x) as [->|]; [done | reflexivity].
  - apply elem_of_cons in Hin as [|Hin]; [done|]. by apply IH.
Qed.

Lemma handshake (ids : list string) (edges : list DependencyEdge) :
  NoDup ids → Forall (wellFormedEdge ids) edges →
  list_sum (map (λ i, connectionCount i edges) ids) = (2 * length edges)%nat.
Proof.
  intros Hnodup. induction 1 as [|e edges (Hs & Ht & Hne & _) _ IH]; simpl.
  - apply list_sum_map_0. reflexivity.
  - rewrite (map_ext (λ i, connectionCount i (e :: edges))
               (λ i, ((if String.eqb (source e) i then 1 else 0)
                      + (if String.eqb (target e) i then 1 else 0))
                     + connectionCount i edges)%nat).
    + rewrite list_sum_map_add, list_sum_map_add, IH.
      rewrite !one_occurrence by assumption. lia.
    + intros i. rewrite connectionCount_cons. f_equal.
      destruct (String.eqb_spec (source e) i) as [Hsi|_];
        destruct (String.eqb_spec (target e) i) as [Hti|_]; simpl;
        congruence.
Qed.

(** X7: when the discovered files have pairwise distinct relative
    paths, the connection counts of the nodes of the returned graph add
    up to twice the number of its edges. *)
Theorem connection_counts_add_up (files : list string) :
  NoDup (map relativeOf files) →
  let graph := analyzeFiles files in
  list_sum (map (λ node, connectionCount (id node) (edges graph)) (nodes graph))
  = (2 * length (edges graph))%nat.
Proof.
  intros Hnodup graph. subst graph.
  rewrite <- (handshake (map relativeOf files)
                (edges (analyzeFiles files)) Hnodup (extractEdges_wellFormed files)).
  rewrite <- (node_ids cwd tempDir readFile files), map_map. reflexivity.
Qed.

(** X8: every edge of the returned graph has the value 1, and the graph
    has at most as many edges as the cached contents of the files have
    relative specifiers. *)
Theorem edges_bounded_by_specifiers (files : list string) :
  let graph := analyzeFiles files in
  Forall (λ e, value e = 1%nat) (edges graph)
  ∧ (length (edges graph)
     ≤ list_sum
         (map (λ file,
                 length (List.filter isRelativeSpecifier
                           (cachedImports cwd tempDir readFile files file)))
            files))%nat.
Proof.
  intros graph. subst graph. split.
  - eapply Forall_impl; [apply extractEdges_wellFormed|].
    by intros e (_ & _ & _ & Hvalue).
  - change (edges (analyzeFiles files)) with (acc_edges (extractEdges files)).
    rewrite (extractEdges_edges cwd tempDir readFile files).
    assert (Hfile : ∀ maps file l,
              (length (flat_map (edgesOfSpecifier cwd tempDir maps file) l)
               ≤ length l)%nat).
    { intros maps file l. induction l as [|importPath l IH]; simpl; [lia|].
      rewrite length_app.
      unfold edgesOfSpecifier at 1, edgeOfTarget.
      destruct (fastResolveImport file importPath maps); simpl; [|lia].
      destruct (_ && _); simpl; lia. }
    generalize files at 2 4. intros l.
    induction l as [|file rest IH]; simpl; [lia|].
    rewrite length_app. unfold edgesOfFile at 1.
    pose proof (Hfile (buildFileMaps files) file
                  (List.filter isRelativeSpecifier
                     (cachedImports cwd tempDir readFile files file))).
    lia.
Qed.

(** *** Importance *)

Lemma node_importance (files : list string) (node : DependencyNode) :
  node ∈ nodes (analyzeFiles files) →
  importance node
  = (inject_Z (Z.of_nat (getFileTypeImportance (type node)))
     + inject_Z (Z.of_nat (connectionCount (id node)
                             (edges (analyzeFiles files))))
       * (1 # 2))%Q.
Proof.
  rewrite (nodes_analyzeFiles cwd tempDir readFile).
  intros (file & -> & _)%list_elem_of_fmap.
  unfold repoAnalyzer.score. cbn [importance type id].
  rewrite (type_makeNode_truthy cwd tempDir readFile).
  rewrite (extractEdges_countsAgree cwd tempDir readFile files). reflexivity.
Qed.

(** X9: of two nodes of the returned graph with the same type, the one
    that more edges touch has the higher importance; and no node has an
    importance below 3. *)
Theorem importance_monotone (files : list string) :
  let graph := analyzeFiles files in
  (∀ node1 node2,
     node1 ∈ nodes graph → node2 ∈ nodes graph →
     type node1 = type node2 →
     (connectionCount (id node1) (edges graph)
      < connectionCount (id node2) (edges graph))%nat →
     (importance node1 < importance node2)%Q)
  ∧ (∀ node, node ∈ nodes graph → (3 <= importance node)%Q).
Proof.
  intros graph. subst graph. split.
  - intros node1 node2 H1 H2 Htype Hlt.
    rewrite (node_importance files node1 H1), (node_importance files node2 H2).
    rewrite Htype. unfold Qlt, Qplus, Qmult, inject_Z.
    cbn [Qnum Qden Pos.mul]. lia.
  - intros node Hnode. rewrite (node_importance files node Hnode).
    pose proof (importance_bounds (type node)) as [Hlow _].
    unfold Qle, Qplus, Qmult, inject_Z. cbn [Qnum Qden Pos.mul]. lia.
Qed.

(** *** Files without relative specifiers *)

Lemma extractImports_empty : extractImports "" = [].
Proof. reflexivity. Qed.

(** X10: when the discovered files have pairwise distinct relative
    paths, a file whose content has no relative specifier, and so a file
    that cannot be read, is the source of no edge of the returned
    graph. *)
Theorem no_specifier_no_outgoing_edge (files : list string) (file : string) :
  NoDup (map relativeOf files) → file ∈ files →
  Forall (λ importPath, isRelativeSpecifier importPath = false)
    (extractImports (contentOf readFile file))
  ∨ readFile file = None →
  Forall (λ e, source e ≠ relativeOf file) (edges (analyzeFiles files)).
Proof.
  intros Hnodup Hin Hcontent.
  assert (Hbare : Forall (λ importPath, isRelativeSpecifier importPath = false)
                    (extractImports (contentOf readFile file))).
  { destruct Hcontent as [H|H]; [exact H|].
    unfold contentOf. rewrite H. simpl. rewrite extractImports_empty.
    apply Forall_nil_2. }
  clear Hcontent.
  change (edges (analyzeFiles files)) with (acc_edges (extractEdges files)).
  apply Forall_forall. intros e He Hsource.
  rewrite (extractEdges_edges cwd tempDir readFile files) in He.
  apply list_elem_of_In, in_flat_map in He as (other & Hother & He).
  apply list_elem_of_In in Hother.
  unfold edgesOfFile in He. apply in_flat_map in He as (importPath & Hspec & He).
  apply filter_In in Hspec as [Hspec Hrel].
  unfold edgesOfSpecifier, edgeOfTarget in He.
  destruct (repoAnalyzer.fastResolveImport cwd tempDir other importPath _)
    as [resolvedTarget|]; [|destruct He].
  destruct (_ && _); [|destruct He].
  destruct He as [<-|[]]. simpl in Hsource.
  assert (other = file) as ->.
  { apply (NoDup_map_injective relativeOf files); assumption. }
  unfold cachedImports in Hspec.
  rewrite (cacheContents_lookup cwd tempDir readFile files file Hnodup Hin)
    in Hspec.
  simpl in Hspec. apply list_elem_of_In in Hspec.
  eapply Forall_forall in Hbare; [|exact Hspec]. simpl in Hbare. congruence.
Qed.

(** *** Batches *)

Lemma slices_lengths {A : Type} (fuel n : nat) (l : list A) :
  (0 < n)%nat →
  Forall (λ batch : list A, (1 ≤ length batch ≤ n)%nat) (slices fuel n l).
Proof.
  intros Hn. revert l. induction fuel as [|fuel IH]; intros l; simpl;
    [apply Forall_nil_2|].
  destruct l as [|x l]; [apply Forall_nil_2|].
  apply Forall_cons. split; [|apply IH].
  rewrite length_take. simpl. lia.
Qed.

(** X11: the batch size is between 10 and 100, and the batches are the
    discovered files, in their order, cut into pieces that are not empty
    and not longer than the batch size. *)
Theorem batches_partition (files : list string) :
  let batchSize := batchSizeOf files in
  (10 ≤ batchSize ≤ 100)%nat
  ∧ concat (batches batchSize files) = files
  ∧ Forall (λ batch : list string, (1 ≤ length batch ≤ batchSize)%nat)
      (batches batchSize files).
Proof.
  intros batchSize. subst batchSize.
  assert (Hsize : (10 ≤ batchSizeOf files ≤ 100)%nat)
    by (unfold batchSizeOf; lia).
  split; [exact Hsize|]. split.
  - apply batches_concat. lia.
  - apply slices_lengths. lia.
Qed.

End AnalyzerMore.

(** *** Instances *)

Lemma index_complete_witness :
  ∃ dirFiles : gset string,
    filesByDirectory (mapsOf scenarioB)
    !! path.dirname (relativeOf exampleCwd exampleTempDir (inRepo "utils/index.ts"))
    = Some dirFiles
    ∧ relativeOf exampleCwd exampleTempDir (inRepo "utils/index.ts") ∈ dirFiles.
Proof.
  apply (index_complete exampleCwd exampleTempDir (discovered scenarioB)
           (inRepo "utils/index.ts")).
  compute_done.
Defined.

Lemma connection_counts_add_up_witness :
  list_sum (map (λ node, connectionCount (id node) (edges (graphOfFiles scenarioE)))
              (nodes (graphOfFiles scenarioE)))
  = (2 * length (edges (graphOfFiles scenarioE)))%nat.
Proof.
  apply (connection_counts_add_up exampleCwd exampleTempDir
           (readExample scenarioE) (discovered scenarioE)).
  compute_done.
Defined.

Lemma importance_monotone_witness :
  ∃ node1 node2,
    nodes (graphOfFiles hub) !! 1%nat = Some node1
    ∧ nodes (graphOfFiles hub) !! 0%nat = Some node2
    ∧ (importance node1 < importance node2)%Q.
Proof.
  eexists _, _. split; [vm_compute; reflexivity|].
  split; [vm_compute; reflexivity|].
  apply (importance_monotone exampleCwd exampleTempDir (readExample hub)
           (discovered hub)).
  - apply (list_elem_of_lookup_2 _ 1%nat). vm_compute. reflexivity.
  - apply (list_elem_of_lookup_2 _ 0%nat). vm_compute. reflexivity.
  - reflexivity.
  - vm_compute. lia.
Defined.

Lemma no_specifier_no_outgoing_edge_witness :
  Forall (λ e, source e
               ≠ relativeOf exampleCwd exampleTempDir (inRepo "locked.ts"))
    (edges (graphOfFiles lockedAmongOthers)).
Proof.
  apply (no_specifier_no_outgoing_edge exampleCwd exampleTempDir
           (readExample lockedAmongOthers) (discovered lockedAmongOthers)
           (inRepo "locked.ts")).
  - compute_done.
  - compute_done.
  - right. vm_compute. reflexivity.
Defined.

Example lockedAmongOthers_graph :
  edgesOfTree lockedAmongOthers
  = Some [{| source := "a.ts"; target := "locked.ts"; value := 1 |}].
Proof. vm_compute. reflexivity. Qed.


Lemma resolver_returns_discovered_file_witness :
  "src/foo.js"
  ∈ map (relativeOf exampleCwd exampleTempDir) (discovered jsAndJsx).
Proof.
  apply (proj1 (resolver_returns_discovered_file exampleCwd exampleTempDir
                  (discovered jsAndJsx) (inRepo "src/main.ts") "./foo")).
  vm_compute. reflexivity.
Defined.

Lemma exact_match_priority_witness :
  resolveIn jsAndJsx (inRepo "src/main.ts") "./foo" = Some "src/foo.js".
Proof.
  apply (exact_match_priority exampleCwd exampleTempDir (mapsOf jsAndJsx)
           (inRepo "src/main.ts") "./foo" [".ts"; ".tsx"]
           [".jsx"; ".go"; ".py"; ".java"; ".php"; ".rb"; ".cs"; ".cpp"; ".h"]
           ".js" "src/foo.js").
  - reflexivity.
  - compute_done.
  - vm_compute. reflexivity.
Defined.


Example buttonElsewhere_graph :
  resolveIn buttonElsewhere (inRepo "app.ts") "./components/Button"
  = Some "src/ui/Button.tsx"
  ∧ edgesOfTree buttonElsewhere
    = Some [{| source := "app.ts"; target := "src/ui/Button.tsx"; value := 1 |}].
Proof. split; vm_compute; reflexivity. Qed.

(** ** Discovery *)

Lemma entry_nested_ind (P : entry → Prop) :
  (∀ name content, P (File name content)) →
  (∀ name, P (Directory name None)) →
  (∀ name entries, Forall P entries → P (Directory name (Some entries))) →
  ∀ e, P e.
Proof.
  intros HFile HNone HSome. fix IH 1.
  intros [name content|name [entries|]]; [apply HFile| |apply HNone].
  apply HSome.
  exact ((fix each (es : list entry) : Forall P es :=
            match es with
            | [] => Forall_nil_2 P
            | e' :: es' => Forall_cons_2 P e' es' (IH e') (each es')
            end) entries).
Qed.

Lemma batch_order_Permutation (batch : list (bool * list string)) :
  concat (map snd (List.filter (λ r, negb (fst r)) batch))
  ++ concat (map snd (List.filter fst batch))
  ≡ₚ concat (map snd batch).
Proof.
  induction batch as [|[isDir pushed] batch IH]; simpl; [reflexivity|].
  destruct isDir; simpl.
  - rewrite <- IH. rewrite !app_assoc. f_equiv. apply Permutation_app_comm.
  - rewrite <- IH. by rewrite app_assoc.
Qed.

Lemma inBatchOrder_Permutation (n : nat) (pushed : list (bool * list string)) :
  (0 < n)%nat → inBatchOrder n pushed ≡ₚ concat (map snd pushed).
Proof.
  intros Hn. unfold inBatchOrder.
  rewrite <- (batches_concat n pushed Hn) at 2.
  induction (batches n pushed) as [|batch bs IH]; simpl; [reflexivity|].
  rewrite map_app, concat_app, IH. f_equiv. apply batch_order_Permutation.
Qed.

Lemma visit_Directory (currentDir name : string) (entries : list entry) :
  visit currentDir (Directory name (Some entries))
  = if JS.startsWith name "." && negb (String.eqb name ".env") then []
    else if bool_decide (name ∈ skipDirs) then []
    else inBatchOrder 50
           (map (λ e, (isDirectory e, visit (path.join [currentDir; name]) e))
              entries).
Proof.
  cbn [visit entryName].
  destruct (_ && _); [reflexivity|]. destruct (bool_decide _); [reflexivity|].
  reflexivity.
Qed.

Lemma visitInOrder_Directory (currentDir name : string) (entries : list entry) :
  visitInOrder currentDir (Directory name (Some entries))
  = if JS.startsWith name "." && negb (String.eqb name ".env") then []
    else if bool_decide (name ∈ skipDirs) then []
    else flat_map (visitInOrder (path.join [currentDir; name])) entries.
Proof.
  cbn [visitInOrder entryName].
  destruct (_ && _); [reflexivity|]. destruct (bool_decide _); [reflexivity|].
  reflexivity.
Qed.

Lemma visit_Permutation (e : entry) :
  ∀ currentDir, visit currentDir e ≡ₚ visitInOrder currentDir e.
Proof.
  induction e as [name content|name|name entries IH] using entry_nested_ind;
    intros currentDir; [reflexivity | reflexivity|].
  rewrite visit_Directory, visitInOrder_Directory.
  destruct (_ && _); [reflexivity|]. destruct (bool_decide _); [reflexivity|].
  rewrite inBatchOrder_Permutation by lia.
  rewrite map_map. cbn [snd].
  generalize (path.join [currentDir; name]). intros fullPath.
  induction IH as [|e entries He _ IHentries]; simpl; [reflexivity|].
  by rewrite He, IHentries.
Qed.

Lemma getAllFiles_up_to_order_helper (dir : string) (tree : option (list entry)) :
  getAllFiles dir tree ≡ₚ traverseInOrder dir tree.
Proof.
  unfold getAllFiles, traverse, traverseInOrder.
  destruct tree as [entries|]; [|reflexivity]. simpl.
  rewrite inBatchOrder_Permutation by lia. rewrite map_map. cbn [snd].
  induction entries as [|e entries IH]; simpl; [reflexivity|].
  by rewrite visit_Permutation, IH.
Qed.

(** X12: the batches of fifty entries only change the order of the
    result: [getAllFiles] finds, up to their order, the files that the
    traversal of one entry after the other finds. *)
Theorem getAllFiles_up_to_order (dir : string) (tree : option (list entry)) :
  getAllFiles dir tree ≡ₚ traverseInOrder dir tree
  ∧ length (getAllFiles dir tree) = length (traverseInOrder dir tree).
Proof.
  split; [|apply Permutation_length]; apply getAllFiles_up_to_order_helper.
Qed.



Lemma visit_in_filesUnder (e : entry) :
  ∀ currentDir file,
    file ∈ visit currentDir e →
    ∃ content, (file, content) ∈ filesUnder currentDir e.
Proof.
  induction e as [name content|name|name entries IH] using entry_nested_ind;
    intros currentDir file.
  - cbn [visit filesUnder entryName].
    destruct (_ && _); [intros H; by apply elem_of_nil in H|].
    destruct (bool_decide _); [|intros H; by apply elem_of_nil in H].
    intros ->%list_elem_of_singleton. exists content. left.
  - cbn [visit entryName].
    destruct (_ && _); [intros H; by apply elem_of_nil in H|].
    destruct (bool_decide _); intros H; by apply elem_of_nil in H.
  - rewrite visit_Directory.
    destruct (_ && _); [intros H; by apply elem_of_nil in H|].
    destruct (bool_decide _); [intros H; by apply elem_of_nil in H|].
    rewrite inBatchOrder_Permutation by lia. rewrite map_map. cbn [snd].
    change (filesUnder currentDir (Directory name (Some entries)))
      with (flat_map (filesUnder (path.join [currentDir; name])) entries).
    generalize (path.join [currentDir; name]). intros fullPath.
    induction IH as [|e entries He _ IHentries]; simpl;
      [intros H; by apply elem_of_nil in H|].
    intros [H|H]%elem_of_app.
    + destruct (He _ _ H) as [content Hc]. exists content.
      apply elem_of_app. by left.
    + destruct (IHentries H) as [content Hc]. exists content.
      apply elem_of_app. by right.
Qed.

Lemma firstHit_path (file : string) (content : option string)
    (l : list (string * option string)) :
  (file, content) ∈ l →
  ∃ content',
    firstHit (λ pc : string * option string,
                if String.eqb (fst pc) file then Some (snd pc) else None) l
    = Some content'
    ∧ (file, content') ∈ l.
Proof.
  induction l as [|[p c] l IH]; [intros H; by apply elem_of_nil in H|].
  intros Hin. simpl. destruct (String.eqb_spec p file) as [->|Hne].
  - exists c. split; [reflexivity | left].
  - apply elem_of_cons in Hin as [[= <- _]|Hin]; [done|].
    destruct (IH Hin) as (c' & Hhit & Hc'). exists c'.
    split; [exact Hhit | by right].
Qed.

(** X14: a path that [getAllFiles] returns is the path of a file of the
    clone, and reading it gives what the clone holds at that path (the
    content, or the failure of the read). *)
Theorem discovered_files_are_files_of_the_clone (dir : string)
    (tree : option (list entry)) (file : string) :
  file ∈ getAllFiles dir tree →
  ∃ content,
    (file, content) ∈ flat_map (filesUnder dir) (default [] tree)
    ∧ readFileIn dir tree file = content.
Proof.
  intros Hin.
  assert (Hfile : ∃ content,
             (file, content) ∈ flat_map (filesUnder dir) (default [] tree)).
  { rewrite getAllFiles_up_to_order_helper in Hin.
    unfold traverseInOrder in Hin.
    induction (default [] tree) as [|e entries IH]; simpl in *;
      [by apply elem_of_nil in Hin|].
    apply elem_of_app in Hin as [Hin|Hin].
    - rewrite <- visit_Permutation in Hin.
      destruct (visit_in_filesUnder e _ _ Hin) as [content Hc].
      exists content. apply elem_of_app. by left.
    - destruct (IH Hin) as [content Hc]. exists content.
      apply elem_of_app. by right. }
  destruct Hfile as [content Hc].
  destruct (firstHit_path _ _ _ Hc) as (content' & Hhit & Hc').
  exists content'. split; [exact Hc'|].
  unfold readFileIn. by rewrite Hhit.
Qed.

Lemma discovered_files_are_files_of_the_clone_witness :
  ∃ content,
    (inRepo "utils/index.ts", content)
    ∈ flat_map (filesUnder exampleTempDir) (default [] (Some scenarioB))
    ∧ readFileIn exampleTempDir (Some scenarioB) (inRepo "utils/index.ts")
      = content.
Proof.
  apply discovered_files_are_files_of_the_clone. compute_done.
Defined.

(** ** The types of the discovered files

    The full path of a discovered file has the extension of its name,
    which the allow list holds; so the type of a node is never the name
    of an inherited property. *)

Lemma split_nonempty (sep : ascii) (s : string) : JS.split sep s ≠ [].
Proof.
  destruct s as [|c s]; simpl; [discriminate|].
  destruct (Ascii.eqb c sep); [discriminate|].
  destruct (JS.split sep s); discriminate.
Qed.

Lemma split_app_sep (sep : ascii) (a b : string) :
  JS.split sep (a ++ String sep b) = (JS.split sep a ++ JS.split sep b)%list.
Proof.
  induction a as [|c a IH]; simpl.
  - by rewrite Ascii.eqb_refl.
  - rewrite IH. destruct (Ascii.eqb c sep); [reflexivity|].
    pose proof (split_nonempty sep a) as Hne.
    destruct (JS.split sep a); [congruence | reflexivity].
Qed.

Lemma split_plain (name : string) :
  plainName name = true → JS.split path.sep name = [name].
Proof.
  unfold plainName.
  induction name as [|c name IH]; simpl; [reflexivity|].
  intros [Hc Hname]%andb_true_iff. unfold path.notSep, path.isSep in Hc.
  apply negb_true_iff in Hc. rewrite Hc, (IH Hname). reflexivity.
Qed.

Lemma append_assoc (a b c : string) : (a ++ b) ++ c = a ++ (b ++ c).
Proof.
  induction a as [|x a IH]; [reflexivity|].
  change (String x ((a ++ b) ++ c) = String x (a ++ (b ++ c))). by f_equal.
Qed.

Lemma join_snoc (sep : string) (l : list string) (x : string) :
  JS.join sep (l ++ [x])
  = match l with [] => x | _ => JS.join sep l ++ sep ++ x end.
Proof.
  induction l as [|p l IH]; [reflexivity|].
  change ((p :: l) ++ [x])%list with (p :: (l ++ [x]))%list.
  destruct l as [|q l]; [reflexivity|].
  change (JS.join sep (p :: (q :: l) ++ [x]))
    with (p ++ sep ++ JS.join sep ((q :: l) ++ [x])).
  rewrite IH.
  change (JS.join sep (p :: q :: l)) with (p ++ sep ++ JS.join sep (q :: l)).
  by rewrite <- !append_assoc.
Qed.

Lemma chars_app (a b : string) :
  list_ascii_of_string (a ++ b)
  = (list_ascii_of_string a ++ list_ascii_of_string b)%list.
Proof. induction a as [|c a IH]; simpl; [reflexivity | by rewrite IH]. Qed.

Lemma takeWhile_app {A : Type} (p : A → bool) (l1 l2 : list A) :
  forallb p l1 = true →
  match l2 with [] => True | x :: _ => p x = false end →
  JS.takeWhile p (l1 ++ l2) = l1.
Proof.
  intros Hall Hhead. induction l1 as [|x l1 IH]; simpl in *.
  - destruct l2 as [|y l2]; [reflexivity|]. simpl. by rewrite Hhead.
  - apply andb_true_iff in Hall as [Hx Hall]. by rewrite Hx, IH.
Qed.

Lemma forallb_rev {A : Type} (p : A → bool) (l : list A) :
  forallb p (rev l) = forallb p l.
Proof.
  induction l as [|x l IH]; simpl; [reflexivity|].
  rewrite forallb_app, IH. simpl. rewrite andb_true_r. apply andb_comm.
Qed.

Lemma append_nil_r (a : string) : a ++ "" = a.
Proof.
  induction a as [|x a IH]; [reflexivity|].
  change (String x (a ++ "") = String x a). by f_equal.
Qed.

Lemma split_allSeps (s : string) :
  allSeps s = true → Forall (λ piece, piece = "") (JS.split path.sep s).
Proof.
  unfold allSeps. induction s as [|c s IH]; simpl.
  - intros _. by constructor.
  - intros [Hc Hs]%andb_true_iff. unfold path.isSep in Hc. rewrite Hc.
    constructor; [reflexivity | by apply IH].
Qed.

Lemma split_plain_slashes (name slashes : string) :
  plainName name = true → allSeps slashes = true →
  ∃ empties, JS.split path.sep (name ++ slashes) = (name :: empties)%list
             ∧ Forall (λ piece, piece = "") empties.
Proof.
  intros Hplain Hslashes. destruct slashes as [|c slashes].
  - exists []. rewrite append_nil_r. split; [by apply split_plain | constructor].
  - unfold allSeps in Hslashes. simpl in Hslashes.
    apply andb_true_iff in Hslashes as [Hc Hslashes].
    apply Ascii.eqb_eq in Hc as ->.
    exists (JS.split path.sep slashes).
    rewrite split_app_sep, (split_plain name Hplain).
    split; [reflexivity | by apply split_allSeps].
Qed.

Lemma fold_pushSegment_empties (allowAboveRoot : bool) (empties res : list string) :
  Forall (λ piece, piece = "") empties →
  fold_left (path.pushSegment allowAboveRoot) empties res = res.
Proof.
  induction 1 as [|piece empties -> _ IH]; [reflexivity|]. exact IH.
Qed.

Lemma dropWhile_takeWhile {A : Type} (p : A → bool) (l : list A) :
  (JS.takeWhile p l ++ JS.dropWhile p l)%list = l.
Proof.
  induction l as [|x l IH]; simpl; [reflexivity|].
  destruct (p x); simpl; [by rewrite IH | reflexivity].
Qed.

Lemma forallb_takeWhile {A : Type} (p : A → bool) (l : list A) :
  forallb p (JS.takeWhile p l) = true.
Proof.
  induction l as [|x l IH]; simpl; [reflexivity|].
  destruct (p x) eqn:Hx; simpl; [by rewrite Hx | reflexivity].
Qed.

Lemma dropWhile_head {A : Type} (p : A → bool) (l : list A) :
  match JS.dropWhile p l with [] => True | x :: _ => p x = false end.
Proof.
  induction l as [|x l IH]; simpl; [exact I|].
  destruct (p x) eqn:Hx; [exact IH | exact Hx].
Qed.

Lemma string_of_chars_app (a b : list ascii) :
  string_of_list_ascii (a ++ b)
  = string_of_list_ascii a ++ string_of_list_ascii b.
Proof.
  induction a as [|x a IH]; [reflexivity|].
  change (String x (string_of_list_ascii (a ++ b))
          = String x (string_of_list_ascii a ++ string_of_list_ascii b)).
  by f_equal.
Qed.

(** A path is its base name between what lies before it, which is
    empty or ends with a separator, and separators. *)
Lemma basename_decompose (p : string) :
  ∃ before slashes,
    p = before ++ path.basename p ++ slashes
    ∧ (before = "" ∨ ∃ b, before = b ++ "/")
    ∧ allSeps slashes = true
    ∧ plainName (path.basename p) = true.
Proof.
  unfold path.basename, path.trimmedRev.
  set (l := rev (list_ascii_of_string p)).
  set (d := JS.dropWhile path.isSep l).
  exists (string_of_list_ascii (rev (JS.dropWhile path.notSep d))),
         (string_of_list_ascii (rev (JS.takeWhile path.isSep l))).
  split; [|split; [|split]].
  - rewrite <- !string_of_chars_app, <- !rev_app_distr, <- app_assoc.
    rewrite (dropWhile_takeWhile path.notSep d). subst d.
    rewrite (dropWhile_takeWhile path.isSep l). subst l.
    by rewrite rev_involutive, string_of_list_ascii_of_string.
  - pose proof (dropWhile_head path.notSep d) as Hhead.
    destruct (JS.dropWhile path.notSep d) as [|c rest]; [by left|].
    right. exists (string_of_list_ascii (rev rest)).
    unfold path.notSep in Hhead. apply negb_false_iff, Ascii.eqb_eq in Hhead.
    subst c. cbn [rev]. by rewrite string_of_chars_app.
  - unfold allSeps. rewrite list_ascii_of_string_of_list_ascii, forallb_rev.
    apply forallb_takeWhile.
  - unfold plainName. rewrite list_ascii_of_string_of_list_ascii, forallb_rev.
    apply forallb_takeWhile.
Qed.

Lemma basename_between (prefix name slashes : string) :
  name ≠ "" → plainName name = true →
  prefix = "" ∨ (∃ before, prefix = before ++ "/") →
  allSeps slashes = true →
  path.basename (prefix ++ name ++ slashes) = name.
Proof.
  intros Hne Hplain Hprefix Hslashes. unfold path.basename, path.trimmedRev.
  rewrite !chars_app, !rev_app_distr, <- app_assoc.
  assert (Hrev : forallb path.notSep (rev (list_ascii_of_string name)) = true)
    by (rewrite forallb_rev; exact Hplain).
  assert (Hdrop : ∀ rest,
            JS.dropWhile path.isSep
              (rev (list_ascii_of_string slashes)
               ++ rev (list_ascii_of_string name) ++ rest)
            = (rev (list_ascii_of_string name) ++ rest)%list).
  { intros rest. unfold allSeps in Hslashes.
    rewrite <- forallb_rev in Hslashes.
    induction (rev (list_ascii_of_string slashes)) as [|c l IH].
    - cbn [app].
      destruct (rev (list_ascii_of_string name)) as [|c l] eqn:Hchars.
      + apply (f_equal (@rev ascii)) in Hchars.
        rewrite rev_involutive in Hchars.
        destruct name; [congruence | discriminate].
      + simpl in Hrev |- *. apply andb_true_iff in Hrev as [Hc _].
        unfold path.notSep in Hc. apply negb_true_iff in Hc. by rewrite Hc.
    - simpl in Hslashes |- *. apply andb_true_iff in Hslashes as [Hc Hl].
      rewrite Hc. by apply IH. }
  rewrite Hdrop, takeWhile_app.
  - by rewrite rev_involutive, string_of_list_ascii_of_string.
  - exact Hrev.
  - destruct Hprefix as [->|[before ->]]; [exact I|].
    rewrite chars_app, rev_app_distr. reflexivity.
Qed.

Lemma normalize_keeps_last (prefix name slashes : string) :
  name ≠ "" → name ≠ "." → name ≠ ".." → plainName name = true →
  prefix = "" ∨ (∃ before, prefix = before ++ "/") →
  allSeps slashes = true →
  ∃ prefix' slashes',
    path.normalize (prefix ++ name ++ slashes) = prefix' ++ name ++ slashes'
    ∧ (prefix' = "" ∨ ∃ before, prefix' = before ++ "/")
    ∧ allSeps slashes' = true.
Proof.
  intros Hne Hdot Hdots Hplain Hprefix Hslashes.
  destruct (split_plain_slashes name slashes Hplain Hslashes)
    as (empties & Hname & Hempties).
  assert (Hsplit : ∃ init, JS.split path.sep (prefix ++ name ++ slashes)
                           = (init ++ name :: empties)%list).
  { destruct Hprefix as [->|[before ->]].
    - by exists [].
    - exists (JS.split path.sep before).
      rewrite append_assoc.
      change ("/" ++ name ++ slashes) with (String path.sep (name ++ slashes)).
      by rewrite split_app_sep, Hname. }
  destruct Hsplit as [init Hsplit].
  assert (Hn : ∀ allowAboveRoot,
             ∃ q, path.normalizeString (prefix ++ name ++ slashes) allowAboveRoot
                  = q ++ name
                  ∧ (q = "" ∨ ∃ before, q = before ++ "/")).
  { intros allowAboveRoot.
    unfold path.normalizeString. rewrite Hsplit, fold_left_app.
    cbn [fold_left]. rewrite (fold_pushSegment_empties _ _ _ Hempties).
    unfold path.pushSegment at 1.
    assert (JS.isEmpty name = false) as ->
        by (destruct name; [congruence | reflexivity]).
    destruct (String.eqb_spec name ".") as [|_]; [congruence|].
    destruct (String.eqb_spec name "..") as [|_]; [congruence|].
    cbn [orb rev]. rewrite join_snoc.
    destruct (rev (fold_left _ init [])) as [|k ks].
    - exists "". split; [reflexivity | by left].
    - exists (JS.join "/" (k :: ks) ++ "/").
      split; [by rewrite append_assoc | right; by eexists]. }
  unfold path.normalize.
  destruct (JS.isEmpty (prefix ++ name ++ slashes)) eqn:Hempty.
  { destruct prefix, name; simpl in Hempty; congruence. }
  set (tail := if path.endsWithSep (prefix ++ name ++ slashes) then "/" else "").
  assert (Htail : allSeps tail = true)
    by (subst tail; by destruct (path.endsWithSep _)).
  destruct (path.isAbsolute (prefix ++ name ++ slashes)) eqn:Habs; cbv zeta;
    [destruct (Hn (negb true)) as (q & -> & Hq)
    |destruct (Hn (negb false)) as (q & -> & Hq)];
    (assert (JS.isEmpty (q ++ name) = false) as ->
        by (destruct q, name; first [congruence | reflexivity]));
    [exists ("/" ++ q), tail | exists q, tail];
    (split; [|split; [|exact Htail]]).
  - subst tail. destruct (path.endsWithSep _);
      by rewrite ?append_assoc, ?append_nil_r.
  - right. destruct Hq as [->|[before ->]];
      [by exists "" | by exists ("/" ++ before)].
  - subst tail. destruct (path.endsWithSep _);
      by rewrite ?append_assoc, ?append_nil_r.
  - exact Hq.
Qed.

Lemma basename_join (currentDir name : string) :
  path.basename name ≠ "" → path.basename name ≠ "." →
  path.basename name ≠ ".." →
  path.basename (path.join [currentDir; name]) = path.basename name.
Proof.
  intros Hne Hdot Hdots.
  destruct (basename_decompose name)
    as (before & slashes & Hname & Hbefore & Hslashes & Hplain).
  set (base := path.basename name) in *.
  assert (Htruthy : JS.truthy name = true).
  { destruct name; [|reflexivity]. by destruct Hne. }
  unfold path.join. cbn [List.filter]. rewrite Htruthy.
  destruct (JS.truthy currentDir) eqn:Hdir.
  - change (JS.join "/" [currentDir; name]) with (currentDir ++ "/" ++ name).
    rewrite Hname at 1. rewrite <- !append_assoc.
    rewrite (append_assoc _ base slashes).
    destruct (normalize_keeps_last ((currentDir ++ "/") ++ before) base slashes)
      as (q & tail & -> & Hq & Htail); try done.
    { right. destruct Hbefore as [->|[b ->]].
      - exists currentDir. by rewrite append_nil_r.
      - exists ((currentDir ++ "/") ++ b). by rewrite !append_assoc. }
    by apply basename_between.
  - change (JS.join "/" [name]) with name. rewrite Hname at 1.
    destruct (normalize_keeps_last before base slashes)
      as (q & tail & -> & Hq & Htail); try done.
    by apply basename_between.
Qed.

Lemma extname_join (currentDir name : string) :
  path.extname name ≠ "" →
  path.extname (path.join [currentDir; name]) = path.extname name.
Proof.
  intros Hext. unfold path.extname in *.
  rewrite (basename_join currentDir name); [reflexivity|..];
    intros Hbase; rewrite Hbase in Hext; by apply Hext.
Qed.

Lemma visit_extension (e : entry) :
  ∀ currentDir file,
    file ∈ visit currentDir e →
    JS.toLowerCase (path.extname file) ∈ relevantExtensions.
Proof.
  induction e as [name content|name|name entries IH] using entry_nested_ind;
    intros currentDir file.
  - cbn [visit entryName].
    destruct (_ && _); [intros H; by apply elem_of_nil in H|].
    destruct (bool_decide _) eqn:Hext; [|intros H; by apply elem_of_nil in H].
    intros ->%list_elem_of_singleton.
    rewrite extname_join; [by apply bool_decide_eq_true in Hext|].
    intros Hnone. rewrite Hnone in Hext. vm_compute in Hext. discriminate.
  - cbn [visit entryName].
    destruct (_ && _); [intros H; by apply elem_of_nil in H|].
    destruct (bool_decide _); intros H; by apply elem_of_nil in H.
  - rewrite visit_Directory.
    destruct (_ && _); [intros H; by apply elem_of_nil in H|].
    destruct (bool_decide _); [intros H; by apply elem_of_nil in H|].
    rewrite inBatchOrder_Permutation by lia. rewrite map_map. cbn [snd].
    generalize (path.join [currentDir; name]). intros fullPath.
    induction IH as [|e entries He _ IHentries]; simpl;
      [intros H; by apply elem_of_nil in H|].
    intros [H|H]%elem_of_app; [by eapply He | by apply IHentries].
Qed.

Lemma getAllFiles_extension (dir : string) (tree : option (list entry))
    (file : string) :
  file ∈ getAllFiles dir tree →
  JS.toLowerCase (path.extname file) ∈ relevantExtensions.
Proof.
  unfold getAllFiles, traverse. destruct tree as [entries|];
    [|intros H; by apply elem_of_nil in H].
  rewrite inBatchOrder_Permutation by lia.
  rewrite map_map. cbn [snd].
  induction entries as [|e entries IH]; simpl;
    [intros H; by apply elem_of_nil in H|].
  intros [H|H]%elem_of_app; [by eapply visit_extension | by apply IH].
Qed.

Lemma oneOfStrings_elem (x : string) (l : list string) :
  forceGraph.oneOfStrings x l = true → x ∈ l.
Proof.
  unfold forceGraph.oneOfStrings. intros (y & Hy & ->%String.eqb_eq)%existsb_exists.
  by apply list_elem_of_In.
Qed.

Lemma listed_extension_is_own (ext : string) :
  JS.toLowerCase ext ∈ relevantExtensions →
  inheritedType (let type := JS.slice1 ext in
                 if JS.truthy type then type else "other") = false.
Proof.
  intros Hext. cbv zeta. destruct (JS.truthy (JS.slice1 ext)); [|reflexivity].
  destruct (inheritedType (JS.slice1 ext)) eqn:Hinherited; [|reflexivity].
  exfalso. apply oneOfStrings_elem in Hinherited.
  destruct ext as [|c type]; [by vm_compute in Hext|].
  cbn [JS.slice1] in Hinherited.
  unfold relevantExtensions in Hext. apply elem_of_list_to_set in Hext.
  unfold JS.toLowerCase in Hext.
  unfold forceGraph.inheritedKeys in Hinherited.
  repeat (apply elem_of_cons in Hinherited as [->|Hinherited];
          [cbn [JS.map_chars] in Hext;
           repeat (apply elem_of_cons in Hext as [Hext|Hext];
                   [discriminate Hext|]);
           by apply elem_of_nil in Hext|]).
  by apply elem_of_nil in Hinherited.
Qed.

(** C5: for every graph that [analyzeRepository] returns, no node has
    a type that the table would answer with an inherited property, and
    the importance of every node is the base importance of its type
    plus half the number of returned edges that touch it.  The base of
    json is 8; for a type that is not an inherited name the base is at
    least 3 and at most 8, and it is 3 when the table does not list the
    type. *)
Theorem importance_formula (cwd tempDir : string)
    (clone : string → string + option (list entry)) (repoUrl : string)
    (graph : DependencyGraph) :
  analyzeRepository cwd tempDir clone repoUrl = Resolved graph →
  Forall (λ node,
            inheritedType (type node) = false
            ∧ importance node
              = (inject_Z (Z.of_nat (getFileTypeImportance (type node)))
                 + inject_Z (Z.of_nat (connectionCount (id node) (edges graph)))
                   * (1 # 2))%Q)
    (nodes graph)
  ∧ getFileTypeImportance "json" = 8%nat
  ∧ (∀ type, inheritedType type = false →
             (3 ≤ getFileTypeImportance type ≤ 8)%nat)
  ∧ (∀ type, inheritedType type = false →
             type ∉ map fst importanceMap →
             getFileTypeImportance type = 3%nat).
Proof.
  intros (tree & Hclone & ->)%analyzeRepository_Resolved.
  split; [|split; [reflexivity | split; intros type _;
                                 [apply importance_bounds
                                 | apply importance_default]]].
  apply Forall_forall. intros node Hnode. split.
  - rewrite nodes_analyzeFiles in Hnode.
    apply list_elem_of_fmap in Hnode as (file & -> & Hfile).
    apply (listed_extension_is_own (path.extname file)).
    by eapply getAllFiles_extension.
  - by apply node_importance.
Qed.

Lemma importance_formula_witness :
  Forall (λ node,
            inheritedType (type node) = false
            ∧ importance node
              = (inject_Z (Z.of_nat (getFileTypeImportance (type node)))
                 + inject_Z (Z.of_nat (connectionCount (id node)
                                         (edges (graphOfFiles hub))))
                   * (1 # 2))%Q)
    (nodes (graphOfFiles hub)).
Proof.
  apply (importance_formula exampleCwd exampleTempDir
           (λ _, inr (Some hub)) exampleUrl (graphOfFiles hub)).
  vm_compute. reflexivity.
Defined.

(** ** The URL of the repository *)

Lemma lit_inv {A : Type} (w s : string) (caps : captures)
    (k : string → captures → option A) (x : A) :
  run (lit w) s caps k = Some x → ∃ rest, s = w ++ rest ∧ k rest caps = Some x.
Proof.
  revert s. induction w as [|c w IH]; intros s; simpl; [intros H; by exists s|].
  destruct s as [|c' s]; [discriminate|].
  destruct (Ascii.eqb_spec c c') as [->|_]; [|discriminate].
  intros H. destruct (IH _ H) as (rest & -> & Hk). by exists rest.
Qed.

Lemma lit_intro {A : Type} (w rest : string) (caps : captures)
    (k : string → captures → option A) :
  run (lit w) (w ++ rest) caps k = k rest caps.
Proof.
  induction w as [|c w IH]; simpl; [reflexivity|].
  by rewrite Ascii.eqb_refl.
Qed.

Lemma star_inv {A : Type} (greedy : bool) (p : ascii → bool) (s : string)
    (k : string → option A) (x : A) :
  star greedy p s k = Some x →
  ∃ taken rest,
    s = taken ++ rest
    ∧ (∀ c, c ∈ list_ascii_of_string taken → p c = true)
    ∧ k rest = Some x.
Proof.
  induction s as [|c s IH]; simpl.
  - intros H. exists "", "". split; [reflexivity|]. split; [|exact H].
    intros c Hc. by apply elem_of_nil in Hc.
  - assert (Hstop : k (String c s) = Some x →
              ∃ taken rest,
                String c s = taken ++ rest
                ∧ (∀ c, c ∈ list_ascii_of_string taken → p c = true)
                ∧ k rest = Some x).
    { intros H. exists "", (String c s). split; [reflexivity|].
      split; [|exact H]. intros c' Hc. by apply elem_of_nil in Hc. }
    assert (Hgo : star greedy p s k = Some x → p c = true →
              ∃ taken rest,
                String c s = taken ++ rest
                ∧ (∀ c, c ∈ list_ascii_of_string taken → p c = true)
                ∧ k rest = Some x).
    { intros H Hpc. destruct (IH H) as (taken & rest & -> & Hall & Hk).
      exists (String c taken), rest. split; [reflexivity|]. split; [|exact Hk].
      intros c' [->|Hc]%elem_of_cons; [exact Hpc | by apply Hall]. }
    destruct (p c) eqn:Hpc; [|exact Hstop].
    destruct greedy.
    + destruct (star true p s k) as [r|] eqn:Hstar; [|exact Hstop].
      intros [= <-]. by apply Hgo.
    + destruct (k (String c s)) as [r|] eqn:Hk.
      * intros [= <-]. by apply Hstop.
      * intros H. by apply Hgo.
Qed.

Lemma star_greedy_intro {A : Type} (p : ascii → bool) (taken rest : string)
    (k : string → option A) (x : A) :
  (∀ c, c ∈ list_ascii_of_string taken → p c = true) →
  k rest = Some x →
  match rest with String c _ => p c = false | EmptyString => True end →
  star true p (taken ++ rest) k = Some x.
Proof.
  intros Hall Hk Hrest. induction taken as [|c taken IH]; simpl.
  - destruct rest as [|c rest]; [exact Hk|]. simpl. by rewrite Hrest.
  - rewrite (Hall c) by left. rewrite IH; [reflexivity|].
    intros c' Hc. apply Hall. by right.
Qed.

Lemma star_total {A : Type} (greedy : bool) (p : ascii → bool) (s : string)
    (k : string → option A) :
  (∀ rest, is_Some (k rest)) → is_Some (star greedy p s k).
Proof.
  intros Hk. induction s as [|c s IH]; simpl; [apply Hk|].
  destruct (p c); [|apply Hk]. destruct greedy.
  - destruct IH as [r ->]. by eexists.
  - destruct (Hk (String c s)) as [r ->]. by eexists.
Qed.

Lemma noneOf_slash (c : ascii) : noneOf "/" c = true ↔ c ≠ "/"%char.
Proof.
  unfold noneOf, oneOf. simpl. rewrite orb_false_r.
  destruct (Ascii.eqb_spec c "/"); simpl; split; congruence.
Qed.

(** X15: the pattern that [analyzeRepository] (and the form) tests a URL
    with accepts exactly the strings that start with
    [https://github.com/], go on with an owner of one or more
    characters other than [/], a [/], and at least one more character
    other than [/]; whatever follows is accepted. *)
Theorem githubUrl_accepts (url : string) :
  testAnchored githubUrl url = true
  ↔ ∃ owner c rest,
      url = "https://github.com/" ++ owner ++ "/" ++ String c rest
      ∧ owner ≠ ""
      ∧ (∀ x, x ∈ list_ascii_of_string owner → x ≠ "/"%char)
      ∧ c ≠ "/"%char.
Proof.
  unfold testAnchored, matchAt, githubUrl. cbn [seq]. split.
  - destruct (run _ url noCaptures _) as [[len caps]|] eqn:H; [|discriminate].
    intros _. cbn [run] in H.
    apply lit_inv in H as (t & -> & H).
    unfold plus in H. cbn [run] in H.
    destruct t as [|o t]; [discriminate|].
    destruct (noneOf "/" o) eqn:Ho; [|discriminate].
    apply star_inv in H as (u & v & -> & Hu & H).
    apply lit_inv in H as (v1 & -> & H). cbn [run] in H.
    destruct v1 as [|c v1]; [discriminate|].
    destruct (noneOf "/" c) eqn:Hc; [|discriminate].
    exists (String o u), c, v1. split; [reflexivity|].
    split; [discriminate|]. split; [|by apply noneOf_slash].
    intros x [->|Hx]%elem_of_cons; apply noneOf_slash; [exact Ho | by apply Hu].
  - intros (owner & c & rest & -> & Hne & Howner & Hc).
    destruct owner as [|o owner]; [done|].
    cbn [run]. rewrite lit_intro. unfold plus. cbn [run].
    change (String o owner ++ "/" ++ String c rest)
      with (String o (owner ++ "/" ++ String c rest)). cbn iota beta.
    rewrite (proj2 (noneOf_slash o)) by (apply Howner; left).
    destruct (star_total true (noneOf "/") rest
                (λ s' : string,
                   Some (String.length
                           ("https://github.com/"
                            ++ String o (owner ++ "/" ++ String c rest))
                         - String.length s', noCaptures))) as [r Hr];
      [intros ?; by eexists|].
    erewrite star_greedy_intro; [reflexivity| | |reflexivity].
    + intros x Hx. apply noneOf_slash, Howner. by right.
    + rewrite lit_intro. cbn [run].
      rewrite (proj2 (noneOf_slash c)) by exact Hc. exact Hr.
Qed.

Lemma githubUrl_accepts_witness : testAnchored githubUrl exampleUrl = true.
Proof.
  apply githubUrl_accepts. exists "umairshaikh45", "V"%char, "isualizer".
  split; [reflexivity|]. split; [discriminate|].
  split; [|discriminate].
  refine (proj1 (Forall_forall _ _) _). compute_done.
Defined.

(** ** The service, the middleware and the form together *)

(** X16: [analyzeRepository] ignores the white space around the URL:
    it gives for a URL what it gives for the trimmed URL. *)
Theorem analyzeRepository_trims (cwd tempDir : string)
    (clone : string → string + option (list entry)) (repoUrl : string) :
  analyzeRepository cwd tempDir clone (JS.trim repoUrl)
  = analyzeRepository cwd tempDir clone repoUrl.
Proof. unfold analyzeRepository. by rewrite trim_idempotent. Qed.

Lemma analyzeApi_answers (cwd tempDir : string)
    (clone : string → string + option (list entry)) (repoUrl : option string) :
  (statusCode (analyzeApi cwd tempDir clone repoUrl) = 400%nat
   ↔ repoUrl = None ∨ repoUrl = Some "")
  ∧ (∀ url, repoUrl = Some url → url ≠ "" →
       testAnchored githubUrl (JS.trim url) = false →
       analyzeApi cwd tempDir clone repoUrl
       = {| statusCode := 500;
            body := ErrorBody "Invalid GitHub repository URL" |})
  ∧ (statusCode (analyzeApi cwd tempDir clone repoUrl) = 200%nat
     ↔ ∃ url graph,
         repoUrl = Some url
         ∧ analyzeRepository cwd tempDir clone url = Resolved graph
         ∧ body (analyzeApi cwd tempDir clone repoUrl) = GraphBody graph)
  ∧ statusCode (analyzeApi cwd tempDir clone repoUrl) ∈ [200; 400; 500]%nat.
Proof.
  unfold analyzeApi.
  destruct repoUrl as [[|c url]|]; simpl.
  - split; [split; [by right | reflexivity]|].
    split; [by intros url [= <-]|].
    split; [|compute_done].
    split; [discriminate | by intros (url & graph & [= <-] & H & _)].
  - destruct (analyzeRepository cwd tempDir clone (String c url))
      as [graph|message] eqn:Hcore; simpl.
    + split; [split; [discriminate | by intros [|]]|].
      split.
      { intros url' [= <-] _ Hbad. unfold analyzeRepository in Hcore.
        rewrite Hbad in Hcore. discriminate. }
      split; [|compute_done].
      split; [intros _; by exists (String c url), graph|reflexivity].
    + split; [split; [discriminate | by intros [|]]|].
      split.
      { intros url' [= <-] _ Hbad. unfold analyzeRepository in Hcore.
        rewrite Hbad in Hcore. simpl in Hcore. by injection Hcore as <-. }
      split; [|compute_done].
      split; [discriminate|].
      intros (url' & graph & [= <-] & H & _). congruence.
  - split; [split; [by left | reflexivity]|].
    split; [by intros url [=]|].
    split; [|compute_done].
    split; [discriminate | by intros (url & graph & [=] & _)].
Qed.

(** What the handler does with a parsed body other than [null]. *)
Lemma onEnd_cases (messageOf : EngineError → string) (cwd tempDir : string)
    (clone : string → string + option (list entry)) (data : Json) :
  data ≠ JNull →
  let response := onEnd messageOf cwd tempDir clone (Some data) in
  (match repoUrlOf data with
   | Some value => truthy value = false ∧ ∀ url, value ≠ JString url
   | None => True
   end
   ∧ response = analyzeApi cwd tempDir clone None)
  ∨ (∃ url, repoUrlOf data = Some (JString url)
            ∧ response = analyzeApi cwd tempDir clone (Some url))
  ∨ (∃ value, repoUrlOf data = Some value ∧ truthy value = true
              ∧ (∀ url, value ≠ JString url)
              ∧ response = failed (messageOf TrimIsNotAFunction)).
Proof.
  intros Hdata response.
  assert (Hresponse : response
            = match repoUrlOf data with
              | None => analyzeApi cwd tempDir clone None
              | Some (JString repoUrl) =>
                  analyzeApi cwd tempDir clone (Some repoUrl)
              | Some value =>
                  if truthy value then failed (messageOf TrimIsNotAFunction)
                  else analyzeApi cwd tempDir clone None
              end) by (by destruct data).
  clearbody response. subst response.
  destruct (repoUrlOf data) as [value|]; [|by left].
  destruct value as [|b|x|url|items|members];
    try (right; left; by eexists);
    destruct (truthy _) eqn:Htruthy;
    first [ left; by repeat split
          | right; right; eexists; by repeat split ].
Qed.

(** X17: the handler of the middleware answers 400 exactly when the
    body parses to a value other than [null] whose [repoUrl] is missing
    or falsy ([null], [false], 0 or the empty string).  A body that
    does not parse, a body that is [null] and a [repoUrl] that is truthy
    and not a string are answered 500 with the message of the engine's
    error; a string that is not empty and fails the pattern is answered
    500 with the message of the analysis, whatever the clone would do.
    The answer is 200 exactly when [repoUrl] is a string whose analysis
    resolves, and then it holds the graph; no answer has another status
    than 200, 400 and 500.  On the body that the form sends the handler
    is [analyzeApi], and the middleware answers the POST requests to
    [/api/analyze] only. *)
Theorem middleware_statuses (messageOf : EngineError → string)
    (cwd tempDir : string) (clone : string → string + option (list entry))
    (parsed : option Json) :
  let response := onEnd messageOf cwd tempDir clone parsed in
  (statusCode response = 400%nat
   ↔ ∃ data, parsed = Some data ∧ data ≠ JNull
             ∧ match repoUrlOf data with
               | Some value => truthy value = false
               | None => True
               end)
  ∧ (parsed = None → response = failed (messageOf JsonSyntaxError))
  ∧ (parsed = Some JNull → response = failed (messageOf DestructuringNull))
  ∧ (∀ data value,
       parsed = Some data → repoUrlOf data = Some value →
       truthy value = true → (∀ url, value ≠ JString url) →
       response = failed (messageOf TrimIsNotAFunction))
  ∧ (∀ data url,
       parsed = Some data → repoUrlOf data = Some (JString url) →
       url ≠ "" → testAnchored githubUrl (JS.trim url) = false →
       response = failed "Invalid GitHub repository URL")
  ∧ (statusCode response = 200%nat
     ↔ ∃ data url graph,
         parsed = Some data ∧ repoUrlOf data = Some (JString url)
         ∧ analyzeRepository cwd tempDir clone url = Resolved graph
         ∧ body response = GraphBody graph)
  ∧ statusCode response ∈ [200; 400; 500]%nat
  ∧ (∀ repoUrl,
       onEnd messageOf cwd tempDir clone (Some (requestBody repoUrl))
       = analyzeApi cwd tempDir clone repoUrl)
  ∧ (∀ url method,
       middleware messageOf cwd tempDir clone url method parsed
       = if decide (url = "/api/analyze" ∧ method = "POST")
         then Some response else None).
Proof.
  intros response.
  assert (Hform : ∀ repoUrl,
            onEnd messageOf cwd tempDir clone (Some (requestBody repoUrl))
            = analyzeApi cwd tempDir clone repoUrl)
    by (by intros [repoUrl|]).
  assert (Hroute : ∀ url method,
            middleware messageOf cwd tempDir clone url method parsed
            = if decide (url = "/api/analyze" ∧ method = "POST")
              then Some response else None).
  { intros url method. unfold middleware. fold response.
    destruct (String.eqb_spec url "/api/analyze") as [->|Hurl];
      destruct (String.eqb_spec method "POST") as [->|Hmethod];
      cbn [andb]; destruct (decide _) as [[? ?]|Hno]; try done.
    by destruct Hno. }
  assert (Hfailed : ∀ message,
            statusCode (failed message) ∈ [200; 400; 500]%nat)
    by (intros message; compute_done).
  destruct parsed as [data|];
    [assert (Hnull : data = JNull ∨ data ≠ JNull)
       by (destruct data; first [by left | by right]);
     destruct Hnull as [->|Hdata]|].
  - subst response. cbn [onEnd] in *.
    split; [split; [discriminate | by intros (data & [= <-] & Hne & _)]|].
    split; [discriminate|]. split; [done|].
    split; [by intros data value [= <-] [=]|].
    split; [by intros data url [= <-] [=]|].
    split; [split; [discriminate
                   | by intros (data & url & graph & [= <-] & [=] & _)]|].
    by repeat split.
  - destruct (onEnd_cases messageOf cwd tempDir clone data Hdata)
      as [[Hfalsy Hresponse]
         |[(url & Hvalue & Hresponse)
          |(value & Hvalue & Htruthy & Hother & Hresponse)]];
      fold response in Hresponse.
    + destruct (analyzeApi_answers cwd tempDir clone None)
        as (H400 & _ & H200 & Hstatus).
      rewrite <- Hresponse in H400, H200, Hstatus.
      split.
      { split; [intros _; exists data; repeat split; [done|];
                 destruct (repoUrlOf data); [apply Hfalsy | done]
               | intros _; apply H400; by left]. }
      split; [discriminate|]. split; [by intros [= ->]|].
      split.
      { intros data' value [= <-] Hvalue Htruthy _.
        rewrite Hvalue in Hfalsy. destruct Hfalsy as [Hfalsy _]. congruence. }
      split.
      { intros data' url [= <-] Hvalue _ _.
        rewrite Hvalue in Hfalsy. destruct Hfalsy as [_ Hfalsy].
        by destruct (Hfalsy url). }
      split; [|by repeat split].
      split.
      { intros H. apply H200 in H as (url & graph & [=] & _). }
      intros (data' & url & graph & [= <-] & Hvalue & _).
      rewrite Hvalue in Hfalsy. destruct Hfalsy as [_ Hfalsy].
      by destruct (Hfalsy url).
    + destruct (analyzeApi_answers cwd tempDir clone (Some url))
        as (H400 & H500 & H200 & Hstatus).
      rewrite <- Hresponse in H400, H500, H200, Hstatus.
      split.
      { rewrite H400. split.
        - intros [[=]|[= ->]]. exists data. repeat split; [done|].
          by rewrite Hvalue.
        - intros (data' & [= <-] & _ & Hfalsy). rewrite Hvalue in Hfalsy.
          right. by destruct url. }
      split; [discriminate|]. split; [by intros [= ->]|].
      split.
      { intros data' value [= <-] Hvalue' _ Hother.
        rewrite Hvalue in Hvalue'. injection Hvalue' as <-.
        by destruct (Hother url). }
      split.
      { intros data' url' [= <-] Hvalue' Hurl Hbad.
        rewrite Hvalue in Hvalue'. injection Hvalue' as <-.
        by apply (H500 url). }
      split; [|by repeat split].
      rewrite H200. split.
      * intros (url' & graph & [= <-] & Hcore & Hbody).
        by exists data, url, graph.
      * intros (data' & url' & graph & [= <-] & Hvalue' & Hcore & Hbody).
        rewrite Hvalue in Hvalue'. injection Hvalue' as <-.
        by exists url, graph.
    + split.
      { rewrite Hresponse. split; [discriminate|].
        intros (data' & [= <-] & _ & Hfalsy). rewrite Hvalue in Hfalsy.
        congruence. }
      split; [discriminate|]. split; [by intros [= ->]|].
      split; [done|].
      split.
      { intros data' url [= <-] Hvalue' _ _.
        rewrite Hvalue in Hvalue'. injection Hvalue' as ->.
        by destruct (Hother url). }
      split; [|split; [rewrite Hresponse; apply Hfailed | by split]].
      rewrite Hresponse. split; [discriminate|].
      intros (data' & url & graph & [= <-] & Hvalue' & _).
      rewrite Hvalue in Hvalue'. injection Hvalue' as ->.
      by destruct (Hother url).
  - subst response. cbn [onEnd] in *.
    split; [split; [discriminate | by intros (data & [=] & _)]|].
    split; [done|]. split; [discriminate|].
    split; [by intros data value [=]|].
    split; [by intros data url [=]|].
    split; [split; [discriminate
                   | by intros (data & url & graph & [=] & _)]|].
    by repeat split.
Qed.

Lemma middleware_statuses_witness :
  onEnd exampleMessages exampleCwd exampleTempDir (λ _, inr (Some scenarioA))
    (Some (JObject [("repoUrl", JNumber (Finite 5%Q))]))
  = {| statusCode := 500;
       body := ErrorBody "repoUrl.trim is not a function" |}.
Proof.
  apply (proj1 (proj2 (proj2 (proj2
           (middleware_statuses exampleMessages exampleCwd exampleTempDir
              (λ _, inr (Some scenarioA))
              (Some (JObject [("repoUrl", JNumber (Finite 5%Q))]))))))
           (JObject [("repoUrl", JNumber (Finite 5%Q))])
           (JNumber (Finite 5%Q)));
    [reflexivity | reflexivity | reflexivity | discriminate].
Defined.

Lemma handleSubmit_OnAnalyze (response : Response) (data : DependencyGraph) :
  handleSubmit response = OnAnalyze data
  ↔ (200 ≤ statusCode response ≤ 299)%nat
    ∧ body response = GraphBody data ∧ nodes data ≠ [].
Proof.
  unfold handleSubmit, thrown.
  destruct response as [status [error|graph]]; cbn [body statusCode].
  - split; [|by intros (_ & [=] & _)].
    destruct (negb _); intros H; discriminate H.
  - destruct ((200 <=? status)%nat && (status <=? 299)%nat) eqn:Hok;
      cbn [negb].
    + apply andb_true_iff in Hok as [H1%Nat.leb_le H2%Nat.leb_le].
      destruct (nodes graph) as [|node rest] eqn:Hnodes; cbn [length Nat.eqb].
      * split; [intros H; discriminate H|].
        intros (_ & [= <-] & Hne). congruence.
      * split; [intros [= <-]; split; [lia|]; split; [reflexivity|];
                 by rewrite Hnodes|].
        by intros (_ & [= <-] & _).
    + split; [intros H; discriminate H|]. intros ([H1 H2] & _).
      apply andb_false_iff in Hok as [H%Nat.leb_gt|H%Nat.leb_gt]; lia.
Qed.

(** X18: from the request to the form: [handleSubmit] hands a graph to
    [onAnalyze] exactly when the analysis of the submitted URL resolves
    with that graph and the graph has a node; when the analysis rejects
    with a message, that message is what the form reports. *)
Theorem form_shows_what_the_analysis_gives (cwd tempDir : string)
    (clone : string → string + option (list entry)) (repoUrl : option string) :
  (∀ data,
     handleSubmit (analyzeApi cwd tempDir clone repoUrl) = OnAnalyze data
     ↔ ∃ url, repoUrl = Some url
              ∧ analyzeRepository cwd tempDir clone url = Resolved data
              ∧ nodes data ≠ [])
  ∧ (∀ url message,
       repoUrl = Some url → url ≠ "" → message ≠ "" →
       analyzeRepository cwd tempDir clone url = Rejected message →
       handleSubmit (analyzeApi cwd tempDir clone repoUrl) = thrown message).
Proof.
  split.
  - intros data. rewrite handleSubmit_OnAnalyze. unfold analyzeApi.
    destruct repoUrl as [[|c url]|]; simpl.
    + split; [by intros (_ & [=] & _)|].
      intros (url & [= <-] & Hcore & _). vm_compute in Hcore. discriminate.
    + destruct (analyzeRepository cwd tempDir clone (String c url))
        as [graph|message] eqn:Hcore; simpl.
      * split.
        -- intros (_ & [= <-] & Hne). by exists (String c url).
        -- intros (url' & [= <-] & Hres & Hne).
           rewrite Hcore in Hres. injection Hres as <-.
           split; [lia|]. by split.
      * split; [by intros (_ & [=] & _)|].
        intros (url' & [= <-] & Hres & _). congruence.
    + split; [by intros (_ & [=] & _) | by intros (url & [=] & _)].
  - intros url message -> Hurl Hmessage Hcore. unfold analyzeApi.
    destruct url as [|c url]; [done|]. simpl. rewrite Hcore. simpl.
    unfold handleSubmit. simpl.
    destruct message; [done | reflexivity].
Qed.

Lemma form_shows_what_the_analysis_gives_witness :
  handleSubmit
    (analyzeApi exampleCwd exampleTempDir (λ _, inl "fatal: repository not found")
       (Some exampleUrl))
  = OnError "Error: fatal: repository not found. Please check the repository URL and try again.".
Proof.
  apply (proj2 (form_shows_what_the_analysis_gives exampleCwd exampleTempDir
                  (λ _, inl "fatal: repository not found") (Some exampleUrl))
           exampleUrl "fatal: repository not found");
    [reflexivity | discriminate | discriminate | vm_compute; reflexivity].
Defined.

(** ** The data of the drawing *)

Lemma baseImportance_bounds (ext : string) (base : nat) :
  forceGraph.baseImportance ext = Some base → (3 ≤ base ≤ 10)%nat.
Proof.
  unfold forceGraph.baseImportance, forceGraph.typeImportance.
  cbn [firstHit fst snd].
  repeat (destruct (String.eqb _ ext); [intros [= <-]; lia|]).
  destruct (forceGraph.oneOfStrings ext forceGraph.inheritedKeys);
    [discriminate | intros [= <-]; lia].
Qed.

Lemma baseImportance_None (ext : string) :
  forceGraph.baseImportance ext = None
  ↔ forceGraph.oneOfStrings ext forceGraph.inheritedKeys = true.
Proof.
  unfold forceGraph.baseImportance, forceGraph.typeImportance.
  cbn [firstHit fst snd].
  repeat match goal with
         | |- context [String.eqb ?key ext] =>
             destruct (String.eqb_spec key ext) as [<-|_];
             [split; intros H; vm_compute in H; discriminate H|]
         end.
  destruct (forceGraph.oneOfStrings ext forceGraph.inheritedKeys);
    split; congruence.
Qed.

Lemma Math_min_cases (a b : Q) :
  (forceGraph.Math_min a b = a ∧ (a <= b)%Q)
  ∨ (forceGraph.Math_min a b = b ∧ (b < a)%Q).
Proof.
  unfold forceGraph.Math_min. destruct (Qle_bool a b) eqn:H.
  - left. split; [reflexivity | by apply Qle_bool_iff].
  - right. split; [reflexivity|]. apply Qnot_le_lt. intros Hle.
    apply Qle_bool_iff in Hle. congruence.
Qed.

Lemma half_count_min (connections : nat) :
  let half := (inject_Z (Z.of_nat connections) * (1 # 2))%Q in
  (0 <= forceGraph.Math_min half 5)%Q
  ∧ (forceGraph.Math_min half 5 <= 5)%Q
  ∧ (forceGraph.Math_min half 5 <= half)%Q.
Proof.
  intros half. subst half.
  destruct (Math_min_cases (inject_Z (Z.of_nat connections) * (1 # 2)) 5)
    as [[-> H]|[-> H]];
    revert H; unfold Qle, Qlt, Qmult, inject_Z; cbn [Qnum Qden Pos.mul]; lia.
Qed.

(** X19: [calculateImportance] gives a number unless the extension of
    the label is the name of a property that every object inherits; the
    number it gives lies between 3 and 15, and a further link does not
    lower it. *)
Theorem calculateImportance_range (node : forceGraph.Node)
    (links : list forceGraph.Link) :
  (forceGraph.calculateImportance node links = None
   ↔ forceGraph.oneOfStrings
       (forceGraph.getFileExtension (forceGraph.label node))
       forceGraph.inheritedKeys = true)
  ∧ (∀ q, forceGraph.calculateImportance node links = Some q →
          (3 <= q)%Q ∧ (q <= 15)%Q)
  ∧ (∀ link q q',
       forceGraph.calculateImportance node links = Some q →
       forceGraph.calculateImportance node (link :: links) = Some q' →
       (q <= q')%Q).
Proof.
  unfold forceGraph.calculateImportance. split; [|split].
  - rewrite <- baseImportance_None.
    destruct (forceGraph.baseImportance _); split; congruence.
  - intros q.
    destruct (forceGraph.baseImportance _) as [base|] eqn:Hbase; [|discriminate].
    intros [= <-]. apply baseImportance_bounds in Hbase.
    destruct (half_count_min
                (length (List.filter (forceGraph.touches (forceGraph.id node))
                           links))) as (H0 & H5 & _).
    revert H0 H5. generalize (forceGraph.Math_min
      (inject_Z (Z.of_nat (length (List.filter
         (forceGraph.touches (forceGraph.id node)) links))) * (1 # 2)) 5).
    intros [n d]. unfold Qle, Qplus, inject_Z. cbn [Qnum Qden Pos.mul]. nia.
  - intros link q q'.
    destruct (forceGraph.baseImportance _) as [base|]; [|discriminate].
    intros [= <-]. cbn [List.filter].
    destruct (forceGraph.touches (forceGraph.id node) link);
      intros [= <-]; apply Qplus_le_r; [|apply Qle_refl].
    cbn [length].
    generalize (length (List.filter (forceGraph.touches (forceGraph.id node))
                          links)).
    intros before.
    destruct (Math_min_cases (inject_Z (Z.of_nat before) * (1 # 2)) 5)
      as [[-> H1]|[-> H1]];
      destruct (Math_min_cases (inject_Z (Z.of_nat (S before)) * (1 # 2)) 5)
        as [[-> H2]|[-> H2]];
      revert H1 H2; unfold Qle, Qlt, Qmult, inject_Z;
      cbn [Qnum Qden Pos.mul]; lia.
Qed.

Lemma calculateImportance_range_witness :
  ∃ q, forceGraph.calculateImportance exampleNode exampleLinks = Some q
       ∧ (3 <= q)%Q ∧ (q <= 15)%Q.
Proof.
  eexists. split; [vm_compute; reflexivity|].
  apply (calculateImportance_range exampleNode exampleLinks).
  vm_compute. reflexivity.
Defined.

Lemma insertByImportance_Permutation (x : forceGraph.Node)
    (l : list forceGraph.Node) :
  forceGraph.insertByImportance x l ≡ₚ x :: l.
Proof.
  induction l as [|y l IH]; simpl; [reflexivity|].
  destruct (Qle_bool _ _); [reflexivity|].
  rewrite IH. apply Permutation_swap.
Qed.

Lemma sortByImportance_Permutation (l : list forceGraph.Node) :
  forceGraph.sortByImportance l ≡ₚ l.
Proof.
  induction l as [|x l IH]; simpl; [reflexivity|].
  by rewrite insertByImportance_Permutation, IH.
Qed.






Lemma filter_sublist {A : Type} (f : A → bool) (l : list A) :
  sublist (List.filter f l) l.
Proof.
  induction l as [|x l IH]; simpl; [constructor|].
  destruct (f x); by constructor.
Qed.

(** X21: the links that are drawn are links that were given, in their
    order, and they are exactly those whose two ends are drawn nodes:
    no drawn link has an end that is not drawn. *)
Theorem filteredLinks_between_shown (nodes : list forceGraph.Node)
    (links : list forceGraph.Link) :
  let shown := map forceGraph.id (forceGraph.processedNodes nodes links) in
  sublist (forceGraph.filteredLinks nodes links) links
  ∧ ∀ link,
      link ∈ forceGraph.filteredLinks nodes links
      ↔ link ∈ links
        ∧ forceGraph.source link ∈ shown ∧ forceGraph.target link ∈ shown.
Proof.
  intros shown. subst shown. unfold forceGraph.filteredLinks.
  split; [apply filter_sublist|].
  intros link. rewrite list_elem_of_In, filter_In, <- list_elem_of_In.
  rewrite andb_true_iff, !bool_decide_eq_true. reflexivity.
Qed.

Lemma filter_all {A : Type} (f : A → bool) (l : list A) :
  Forall (λ x, f x = true) l → List.filter f l = l.
Proof.
  induction 1 as [|x l Hx _ IH]; simpl; [reflexivity|].
  by rewrite Hx, IH.
Qed.

Lemma analyzed_importance_low (cwd tempDir : string)
    (readFile : string → option string) (files : list string)
    (node : DependencyNode) :
  node ∈ nodes (analyzeFiles cwd tempDir readFile files) →
  (3 <= importance node)%Q.
Proof.
  intros Hnode. rewrite (node_importance cwd tempDir readFile files node Hnode).
  pose proof (importance_bounds (type node)) as [Hlow _].
  unfold Qle, Qplus, Qmult, inject_Z. cbn [Qnum Qden Pos.mul]. lia.
Qed.

Lemma truthy_from_3 (q : Q) :
  (3 <= q)%Q → forceGraph.truthyNumber (Some q) = true ∧ Qle_bool 1 q = true.
Proof.
  intros Hq. split.
  - unfold forceGraph.truthyNumber. apply negb_true_iff.
    destruct (Qeq_bool q 0) eqn:Heq; [|reflexivity].
    apply Qeq_bool_iff in Heq. rewrite Heq in Hq. by vm_compute in Hq.
  - apply Qle_bool_iff. eapply Qle_trans; [|exact Hq]. by vm_compute.
Qed.

(** X22: on the graph that the analyzer returns the drawing keeps
    the importance that the analyzer computed for every node; and when
    there are at most 300 files and no label is a system label, every
    node and every edge of the graph is drawn. *)
Theorem drawing_of_the_analyzed_graph (cwd tempDir : string)
    (readFile : string → option string) (files : list string) :
  let graph := analyzeFiles cwd tempDir readFile files in
  let ns := map forceGraph.ofDependencyNode (nodes graph) in
  let ls := map forceGraph.ofDependencyEdge (edges graph) in
  map (forceGraph.withImportance ls) ns = ns
  ∧ ((length files ≤ 300)%nat →
     Forall (λ node, forceGraph.isSystemFile (label node) = false)
       (nodes graph) →
     forceGraph.processedNodes ns ls ≡ₚ ns
     ∧ forceGraph.filteredLinks ns ls = ls).
Proof.
  intros graph ns ls.
  assert (Hsame : map (forceGraph.withImportance ls) ns = ns).
  { subst ns. rewrite map_map. apply map_ext_in. intros node Hnode.
    apply list_elem_of_In, (analyzed_importance_low cwd tempDir readFile files),
      truthy_from_3 in Hnode as [Htruthy _].
    unfold forceGraph.withImportance, forceGraph.ofDependencyNode.
    cbn [forceGraph.importance forceGraph.id forceGraph.label forceGraph.type
         forceGraph.group forceGraph.lines].
    by rewrite Htruthy. }
  split; [exact Hsame|]. intros Hlength Hlabels.
  assert (Hshown : forceGraph.processedNodes ns ls
                   = forceGraph.sortByImportance ns).
  { unfold forceGraph.processedNodes. rewrite Hsame.
    rewrite filter_all.
    - apply take_ge.
      rewrite (Permutation_length (sortByImportance_Permutation ns)).
      subst ns graph. rewrite length_map.
      rewrite (nodes_analyzeFiles cwd tempDir readFile), length_map.
      exact Hlength.
    - subst ns. apply Forall_fmap, Forall_forall. intros node Hnode.
      unfold compose, forceGraph.kept, forceGraph.ofDependencyNode.
      cbn [forceGraph.importance forceGraph.label].
      rewrite (proj1 (Forall_forall _ _) Hlabels node Hnode).
      apply (analyzed_importance_low cwd tempDir readFile files),
        truthy_from_3 in Hnode as [_ Hle].
      exact Hle. }
  split; [rewrite Hshown; apply sortByImportance_Permutation|].
  unfold forceGraph.filteredLinks. rewrite Hshown. apply filter_all.
  subst ls. apply Forall_fmap.
  pose proof (extractEdges_wellFormed cwd tempDir readFile files) as Hedges.
  eapply Forall_impl; [exact Hedges|].
  intros e (Hsource & Htarget & _). cbn [forceGraph.source forceGraph.target
    forceGraph.ofDependencyEdge compose].
  assert (Hids : map forceGraph.id (forceGraph.sortByImportance ns)
                 ≡ₚ map (relativeOf cwd tempDir) files).
  { rewrite (sortByImportance_Permutation ns). subst ns. rewrite map_map.
    cbn [forceGraph.id forceGraph.ofDependencyNode].
    subst graph. by rewrite <- (node_ids cwd tempDir readFile files). }
  apply andb_true_iff. rewrite !bool_decide_eq_true, !Hids. by split.
Qed.

Lemma drawing_of_the_analyzed_graph_witness :
  let ns := map forceGraph.ofDependencyNode (nodes (graphOfFiles hub)) in
  let ls := map forceGraph.ofDependencyEdge (edges (graphOfFiles hub)) in
  forceGraph.processedNodes ns ls ≡ₚ ns ∧ forceGraph.filteredLinks ns ls = ls.
Proof.
  apply (drawing_of_the_analyzed_graph exampleCwd exampleTempDir
           (readExample hub) (discovered hub)).
  - vm_compute. lia.
  - compute_done.
Defined.
